(** * scaper.py: listing extraction and page driver of the adresowo.pl scraper

    A shallow embedding of [src/scaper.py].  Python [str] values are lists of
    Unicode code points, [int] values are unbounded integers, [float] values
    are IEEE binary64 numbers ([spec_float]), the offer card handed to
    [parse_listing] is the record of the answers BeautifulSoup gives to the
    queries the function makes, and [main] threads an explicit run state
    (accumulator, issued requests, printed lines, written file). *)

From Stdlib Require Import List NArith ZArith Bool String Ascii Lia.
From Stdlib Require Import Floats.SpecFloat.
From Stdlib Require DecimalPos.
Import ListNotations.
Local Open Scope Z_scope.
Local Open Scope list_scope.

(** ** Python strings *)

(** A [str] is a sequence of code points. *)
Definition str := list N.

(** String literals of this file are written in UTF-8; [u] decodes them. *)
Fixpoint utf8_decode (bs : list N) : str :=
  match bs with
  | [] => []
  | b0 :: t0 =>
    if (b0 <? 128)%N then b0 :: utf8_decode t0
    else
      match t0 with
      | [] => []
      | b1 :: t1 =>
        if (b0 <? 224)%N
        then ((b0 - 192) * 64 + (b1 - 128))%N :: utf8_decode t1
        else
          match t1 with
          | [] => []
          | b2 :: t2 =>
            if (b0 <? 240)%N
            then ((b0 - 224) * 4096 + (b1 - 128) * 64 + (b2 - 128))%N
                   :: utf8_decode t2
            else
              match t2 with
              | [] => []
              | b3 :: t3 =>
                ((b0 - 240) * 262144 + (b1 - 128) * 4096
                 + (b2 - 128) * 64 + (b3 - 128))%N :: utf8_decode t3
              end
          end
      end
  end.

Definition u (s : string) : str :=
  utf8_decode (map N_of_ascii (list_ascii_of_string s)).

Definition str_eqb (a b : str) : bool :=
  if list_eq_dec N.eq_dec a b then true else false.

(** [s.startswith(p)] *)
Fixpoint startswith (p s : str) : bool :=
  match p, s with
  | [], _ => true
  | _ :: _, [] => false
  | a :: p', b :: s' => (a =? b)%N && startswith p' s'
  end.

(** [p in s] for strings: [p] occurs as a contiguous substring of [s]. *)
Fixpoint str_contains (p s : str) : bool :=
  startswith p s ||
  match s with
  | [] => false
  | _ :: s' => str_contains p s'
  end.

(** [s.replace(a, b)] for one-character [a] and [b]. *)
Definition replace_char (a b : N) (s : str) : str :=
  map (fun c => if (c =? a)%N then b else c) s.

(** ** Unicode character classes used by [re], [str.strip], [int], [float] *)

(** Code points with the White_Space behaviour of [str.isspace]; [\s] of a
    [str] pattern and [str.strip()] use this same set. *)
Definition whitespace_points : list N :=
  [9; 10; 11; 12; 13; 28; 29; 30; 31; 32; 133; 160; 5760;
   8192; 8193; 8194; 8195; 8196; 8197; 8198; 8199; 8200; 8201; 8202;
   8232; 8233; 8239; 8287; 12288]%N.

Definition isspace (c : N) : bool := existsb (N.eqb c) whitespace_points.

(** First code point of every run of ten decimal digits (category Nd, Unicode
    14.0): each run holds the digits zero to nine in order.  [\d] of a [str]
    pattern matches exactly these, and [int]/[float] read them by value. *)
Definition decimal_block_starts : list N :=
  [48; 1632; 1776; 1984; 2406; 2534; 2662; 2790; 2918; 3046; 3174; 3302;
   3430; 3558; 3664; 3792; 3872; 4160; 4240; 6112; 6160; 6470; 6608; 6784;
   6800; 6992; 7088; 7232; 7248; 42528; 43216; 43264; 43472; 43504; 43600;
   44016; 65296; 66720; 68912; 69734; 69872; 69942; 70096; 70384; 70736;
   70864; 71248; 71360; 71472; 71904; 72016; 72784; 73040; 73120; 92768;
   92864; 93008; 120782; 120792; 120802; 120812; 120822; 123200; 123632;
   125264; 130032]%N.

(** [unicodedata.decimal(c)], absent when [c] is not a decimal digit. *)
Definition unicode_decimal (c : N) : option N :=
  match find (fun b => (b <=? c)%N && (c <? b + 10)%N) decimal_block_starts with
  | Some b => Some (c - b)%N
  | None => None
  end.

Definition isdecimal (c : N) : bool :=
  match unicode_decimal c with Some _ => true | None => false end.

Definition digit_value (c : N) : Z :=
  match unicode_decimal c with Some d => Z.of_N d | None => 0 end.

(** [s.strip()] *)
Fixpoint lstrip (s : str) : str :=
  match s with
  | c :: s' => if isspace c then lstrip s' else s
  | [] => []
  end.

Definition rstrip (s : str) : str := rev (lstrip (rev s)).

Definition strip (s : str) : str := rstrip (lstrip s).

(** ** Conversions *)

(** Value of a string of decimal digits read left to right. *)
Definition digits_value (ds : str) : Z :=
  fold_left (fun acc c => acc * 10 + digit_value c) ds 0.

(** [int(s)] on the strings the parsers pass to it, which hold decimal digits
    only: [None] stands for [ValueError].  Signs, underscores and surrounding
    blanks, which [int] also accepts, never reach it here and are outside the
    model, as is the interpreter's optional cap on the number of digits. *)
Definition int_of_str (s : str) : option Z :=
  match s with
  | [] => None
  | _ => if forallb isdecimal s then Some (digits_value s) else None
  end.

(** [str(n)] for an integer. *)
Fixpoint uint_to_str (d : Decimal.uint) : str :=
  match d with
  | Decimal.Nil => []
  | Decimal.D0 d' => 48%N :: uint_to_str d'
  | Decimal.D1 d' => 49%N :: uint_to_str d'
  | Decimal.D2 d' => 50%N :: uint_to_str d'
  | Decimal.D3 d' => 51%N :: uint_to_str d'
  | Decimal.D4 d' => 52%N :: uint_to_str d'
  | Decimal.D5 d' => 53%N :: uint_to_str d'
  | Decimal.D6 d' => 54%N :: uint_to_str d'
  | Decimal.D7 d' => 55%N :: uint_to_str d'
  | Decimal.D8 d' => 56%N :: uint_to_str d'
  | Decimal.D9 d' => 57%N :: uint_to_str d'
  end.

Definition str_of_int (n : Z) : str :=
  match n with
  | Z0 => [48%N]
  | Zpos p => uint_to_str (Pos.to_uint p)
  | Zneg p => 45%N :: uint_to_str (Pos.to_uint p)
  end.

(** *** Floats *)

Definition float := spec_float.

Definition prec : Z := 53.
Definition emax : Z := 1024.

(** The binary64 number nearest to [p / q] (ties to even), for [0 <= p] and
    [0 < q]: the quotient is taken with enough bits and rounded once, as
    IEEE division does. *)
Definition float_of_ratio (p q : Z) : float :=
  match p with
  | Zpos _ =>
    let '(mz, ez, lz) := SFdiv_core_binary prec emax p 0 q 0 in
    binary_round_aux prec emax false mz ez lz
  | _ => S754_zero false
  end.

(** Splits a string over digits and full stops at its first full stop. *)
Fixpoint split_point (s : str) : str * option str :=
  match s with
  | [] => ([], None)
  | c :: s' =>
    if (c =? 46)%N then ([], Some s')
    else let '(a, b) := split_point s' in (c :: a, b)
  end.

(** [float(s)] on the strings [_parse_area] passes to it, which hold decimal
    digits and full stops only: digits with at most one full stop and at
    least one digit, correctly rounded; [None] stands for [ValueError]. *)
Definition float_of_str (s : str) : option float :=
  let '(ip, rest) := split_point s in
  let fp := match rest with Some f => f | None => [] end in
  if forallb isdecimal ip && forallb isdecimal fp
     && negb (Nat.eqb (List.length ip + List.length fp) 0)
  then Some (float_of_ratio (digits_value (ip ++ fp))
                            (10 ^ Z.of_nat (List.length fp)))
  else None.

(** [x > 0] on floats. *)
Definition float_pos (x : float) : bool := SFltb (S754_zero false) x.

(** [float_is x n d]: the float [x] is exactly the rational [n / d]. *)
Definition float_is (x : float) (n d : Z) : Prop :=
  match x with
  | S754_finite false m e =>
    if 0 <=? e then Zpos m * 2 ^ e * d = n else Zpos m * d = n * 2 ^ (- e)
  | S754_zero _ => n = 0
  | _ => False
  end.

(** ** Regular expressions

    The fragment of [re] syntax the three patterns of the module are written
    in, with the matcher's behaviour: leftmost match, greedy repetition,
    backtracking into the shorter repetitions when the rest fails.  Classes
    are predicates on code points; the patterns have one capturing group. *)
Inductive regex : Type :=
| Bol                      (* ^ *)
| Eol                      (* $ : at the end, or before a final newline *)
| Chr (cls : N -> bool)    (* one character of a class, or a literal *)
| Star (cls : N -> bool)   (* cls* *)
| Plus (cls : N -> bool)   (* cls+ *)
| Opt (r : regex)          (* (?:r)? *)
| Cat (r1 r2 : regex)      (* r1 r2 *)
| Group (r : regex).       (* (r), group 1 *)

Section Matcher.
Context {A : Type}.

(** Greedy [cls*] from [rest] at offset [pos]: the longest run first, then
    one character less each time the continuation [k] fails. *)
Fixpoint star_loop (cls : N -> bool) (pos : nat) (rest : str)
         (k : nat -> str -> option A) : option A :=
  match rest with
  | c :: rest' =>
    if cls c then
      match star_loop cls (S pos) rest' k with
      | Some x => Some x
      | None => k pos rest
      end
    else k pos rest
  | [] => k pos rest
  end.

(** [rmatch r pos rest g k]: match [r] at offset [pos], where [rest] is
    what is left of the subject and [g] the text of group 1 so far, then
    go on with [k]. *)
Fixpoint rmatch (r : regex) (pos : nat) (rest : str) (g : option str)
         (k : nat -> str -> option str -> option A) : option A :=
  match r with
  | Bol => if Nat.eqb pos 0 then k pos rest g else None
  | Eol =>
    match rest with
    | [] => k pos rest g
    | [c] => if (c =? 10)%N then k pos rest g else None
    | _ => None
    end
  | Chr cls =>
    match rest with
    | c :: rest' => if cls c then k (S pos) rest' g else None
    | [] => None
    end
  | Star cls => star_loop cls pos rest (fun p r => k p r g)
  | Plus cls =>
    match rest with
    | c :: rest' =>
      if cls c then star_loop cls (S pos) rest' (fun p r => k p r g)
      else None
    | [] => None
    end
  | Opt r1 =>
    match rmatch r1 pos rest g k with
    | Some x => Some x
    | None => k pos rest g
    end
  | Cat r1 r2 =>
    rmatch r1 pos rest g (fun p r g' => rmatch r2 p r g' k)
  | Group r1 =>
    rmatch r1 pos rest g
           (fun p r _ => k p r (Some (firstn (p - pos) rest)))
  end.
End Matcher.

(** A match object: [m.start()], [m.group(0)] and [m.group(1)] ([None] when
    the group took no part in the match). *)
Record re_match : Type := {
  m_start : nat;
  group0 : str;
  group1 : option str
}.

(** The match of [r] that starts at offset [pos], if there is one. *)
Definition match_at (r : regex) (pos : nat) (rest : str) : option re_match :=
  rmatch r pos rest None
         (fun p _ g =>
            Some {| m_start := pos; group0 := firstn (p - pos) rest;
                    group1 := g |}).

Fixpoint search_from (r : regex) (pos : nat) (rest : str) : option re_match :=
  match match_at r pos rest with
  | Some m => Some m
  | None =>
    match rest with
    | [] => None
    | _ :: rest' => search_from r (S pos) rest'
    end
  end.

(** [re.search(r, s)] *)
Definition re_search (r : regex) (s : str) : option re_match :=
  search_from r 0 s.

(** [re.sub(r'[^\d]', '', s)]: every character that is not a digit is
    replaced by nothing. *)
Definition sub_non_digits (s : str) : str := filter isdecimal s.

(** A literal letter under [re.IGNORECASE]: the code points whose lower case
    is the letter. *)
Definition letter_p (c : N) : bool := (c =? 112)%N || (c =? 80)%N.
Definition letter_o (c : N) : bool := (c =? 111)%N || (c =? 79)%N.
Definition letter_k (c : N) : bool :=
  (c =? 107)%N || (c =? 75)%N || (c =? 8490)%N.
Definition full_stop (c : N) : bool := (c =? 46)%N.
Definition digit_or_stop (c : N) : bool := isdecimal c || (c =? 46)%N.

Definition pok : regex := Cat (Chr letter_p) (Cat (Chr letter_o) (Chr letter_k)).

(** [r'[\d.]+'] *)
Definition area_pattern : regex := Plus digit_or_stop.

(** [r'^\s*(\d+)\s*(?:pok\.?)?\s*$'] with [re.IGNORECASE] *)
Definition rooms_pattern : regex :=
  Cat Bol
 (Cat (Star isspace)
 (Cat (Group (Plus isdecimal))
 (Cat (Star isspace)
 (Cat (Opt (Cat pok (Opt (Chr full_stop))))
 (Cat (Star isspace) Eol))))).

(** [r'(\d+)\s*pok'] with [re.IGNORECASE] *)
Definition rooms_fallback : regex :=
  Cat (Group (Plus isdecimal)) (Cat (Star isspace) pok).

(** ** The numeric helpers *)

(** [_clean(s)] *)
Definition _clean (s : str) : str :=
  match s with
  | [] => []
  | _ => strip (replace_char 160 32 s)
  end.

(** [_parse_price(s)] *)
Definition _parse_price (s : str) : option Z :=
  match s with
  | [] => None
  | _ =>
    let digits := sub_non_digits s in
    match digits with
    | [] => None
    | _ =>
      match int_of_str digits with
      | Some n => if 0 <? n then Some n else None
      | None => None                       (* except ValueError *)
      end
    end
  end.

(** [_parse_area(s)] *)
Definition _parse_area (s : str) : option float :=
  match s with
  | [] => None
  | _ =>
    let s := replace_char 44 46 s in
    match re_search area_pattern s with
    | None => None
    | Some m =>
      match float_of_str (group0 m) with
      | Some n => if float_pos n then Some n else None
      | None => None                       (* except ValueError *)
      end
    end
  end.

(** [int(m.group(1))]: a group that took no part in the match gives [None],
    which [int] rejects; both room patterns always fill group 1. *)
Definition int_of_group (g : option str) : option Z :=
  match g with
  | Some t => int_of_str t
  | None => None
  end.

(** [_parse_rooms(s)] *)
Definition _parse_rooms (s : str) : option Z :=
  match s with
  | [] => None
  | _ =>
    let m := re_search rooms_pattern (strip s) in
    let m := match m with
             | None => re_search rooms_fallback s
             | Some _ => m
             end in
    match m with
    | None => None
    | Some m =>
      match int_of_group (group1 m) with
      | Some n => if 0 <? n then Some n else None
      | None => None                       (* except (ValueError, IndexError) *)
      end
    end
  end.

(** ** Constants *)

Definition BASE_URL : str := u "https://adresowo.pl".

(** A value of a CSV row: the rows hold strings, ints and floats. *)
Inductive cell : Type :=
| CStr (s : str)
| CInt (n : Z)
| CFloat (x : float).

Definition row := list cell.

Definition CSV_HEADERS : row :=
  [CStr (u "ID"); CStr (u "Cena"); CStr (u "Metraż"); CStr (u "Pokoje");
   CStr (u "Lokalizacja"); CStr (u "Ulica"); CStr (u "Typ");
   CStr (u "Bez Pośredników"); CStr (u "Opis"); CStr (u "Link")].

(** ** The offer card

    [parse_listing] receives a BeautifulSoup tag and only queries it.  An
    [offer] records what each query answers: [None] is a query that finds
    nothing, and a found element stands for its [get_text()]. *)
Record offer : Type := {
  get_text : str;              (* offer.get_text() *)
  data_id : option str;        (* the data-id attribute *)
  stats : list (option str);   (* offer.select('p.flex-auto.text-base.text-neutral-800'),
                                  each with its find('span', class_='font-bold') *)
  link_href : option str;      (* offer.find('a', href=True), its href *)
  location_el : option str;    (* offer.select_one('span.line-clamp-1.font-bold') *)
  street_el : option str;      (* offer.select_one('span.line-clamp-1.text-neutral-900') *)
  desc_el : option str         (* offer.select_one('p.line-clamp-4') *)
}.

(** [_clean(el.get_text()) if el else ''] *)
Definition clean_text (el : option str) : str :=
  match el with
  | Some t => _clean t
  | None => []
  end.

(** The block [if len(stats) > i: bold = stats[i].find(...); ...], starting
    from the empty string. *)
Definition stat_text (stats : list (option str)) (i : nat) : str :=
  match nth_error stats i with
  | Some bold => clean_text bold
  | None => []
  end.

(** [x if x is not None else ''] *)
Definition int_cell (x : option Z) : cell :=
  match x with Some n => CInt n | None => CStr [] end.

Definition float_cell (x : option float) : cell :=
  match x with Some n => CFloat n | None => CStr [] end.

(** [os.path.dirname(p)] (POSIX): the part before the last slash, without
    its trailing slashes unless it is made of slashes only. *)
Fixpoint drop_basename (rp : str) : str :=
  match rp with
  | c :: rp' => if (c =? 47)%N then rp else drop_basename rp'
  | [] => []
  end.

Fixpoint drop_slashes (rp : str) : str :=
  match rp with
  | c :: rp' => if (c =? 47)%N then drop_slashes rp' else rp
  | [] => []
  end.

Definition dirname (p : str) : str :=
  let head := drop_basename (rev p) in
  match drop_slashes head with
  | [] => rev head
  | h => rev h
  end.

(** Lines printed on standard output, one constructor per [print] call of
    [main], carrying the values formatted into the line. *)
Inductive line : Type :=
| Starting (city : str)
| Fetching (page_num pages : Z)
| NoOffers (page_num : Z)
| Found (count : nat)
| PageError (page_num : Z) (e : str)
| Saving (count : nat) (output_file : str)
| Saved (output_file : str)
| WriteError (output_file : str) (e : str)
| NothingCollected.

(** What [session.get(url, timeout=10)], [raise_for_status()] and the search
    for the offer cards end in: a [requests.RequestException], or the cards
    [soup.find_all('div', {'data-offer-card': True})] finds in the page. *)
Inductive response : Type :=
| RequestException (e : str)
| Cards (offers : list offer).

(** The state of a run. *)
Record run : Type := {
  all_data : list row;             (* the accumulator *)
  requests : list str;             (* URLs requested, oldest first *)
  printed : list line;             (* lines printed, oldest first *)
  naps : nat;                      (* calls of time.sleep(1) *)
  made_dirs : list str;            (* os.makedirs calls *)
  written : option (str * list row) (* the file written and its rows *)
}.

Definition start : run :=
  {| all_data := []; requests := []; printed := []; naps := 0;
     made_dirs := []; written := None |}.

Definition print (l : line) (st : run) : run :=
  {| all_data := all_data st; requests := requests st;
     printed := printed st ++ [l]; naps := naps st;
     made_dirs := made_dirs st; written := written st |}.

Definition request (url : str) (st : run) : run :=
  {| all_data := all_data st; requests := requests st ++ [url];
     printed := printed st; naps := naps st;
     made_dirs := made_dirs st; written := written st |}.

Definition append (r : row) (st : run) : run :=
  {| all_data := all_data st ++ [r]; requests := requests st;
     printed := printed st; naps := naps st;
     made_dirs := made_dirs st; written := written st |}.

Definition sleep (st : run) : run :=
  {| all_data := all_data st; requests := requests st;
     printed := printed st; naps := S (naps st);
     made_dirs := made_dirs st; written := written st |}.

Definition makedirs (d : str) (st : run) : run :=
  {| all_data := all_data st; requests := requests st;
     printed := printed st; naps := naps st;
     made_dirs := made_dirs st ++ [d]; written := written st |}.

Definition write_rows (f : str) (rows : list row) (st : run) : run :=
  {| all_data := all_data st; requests := requests st;
     printed := printed st; naps := naps st;
     made_dirs := made_dirs st; written := Some (f, rows) |}.

(** [range(1, pages + 1)] *)
Definition page_numbers (pages : Z) : list Z :=
  map Z.of_nat (seq 1 (Z.to_nat pages)).

Section Scraper.

(** [str.lower], the lower-casing of the interpreter's Unicode tables. *)
Variable lower : str -> str.

(** The network: what a GET of a URL ends in. *)
Variable http_get : str -> response.

(** The file system: the [IOError], if any, that creating the directory
    of a path and writing the file at that path raises. *)
Variable io_error : str -> option str.

(** [parse_listing(offer)]: [None] is the result of the [except] branch.
    None of the queries and conversions of the body raises, so every offer
    gives a row. *)
Definition parse_listing (offer : offer) : option row :=
  let text := get_text offer in
  let text_lower := lower text in
  let offer_id := match data_id offer with Some v => v | None => [] end in
  let stats := stats offer in
  let price := stat_text stats 0 in
  let area := stat_text stats 1 in
  let rooms := stat_text stats 2 in
  let link :=
    match link_href offer with
    | Some ((_ :: _) as href) =>
      if negb (startswith (u "http") href) then BASE_URL ++ href else href
    | _ => []
    end in
  let location := clean_text (location_el offer) in
  let street := clean_text (street_el offer) in
  let is_private :=
    if str_contains (u "bez pośredników") text_lower
    then u "Tak" else u "Nie" in
  let description := clean_text (desc_el offer) in
  let price_num := _parse_price price in
  let area_num := _parse_area area in
  let rooms_num := _parse_rooms rooms in
  Some [CStr offer_id; int_cell price_num; float_cell area_num;
        int_cell rooms_num; CStr location; CStr street;
        CStr (u "Mieszkanie"); CStr is_private; CStr description;
        CStr link].

(** The inner loop: [row = parse_listing(offer)], [if row: append]. *)
Definition collect (st : run) (offer : offer) : run :=
  match parse_listing offer with
  | Some ((_ :: _) as r) => append r st
  | _ => st
  end.

Definition page_url (city : str) (page_num : Z) : str :=
  BASE_URL ++ u "/mieszkania/" ++ city ++ u "/_l" ++ str_of_int page_num.

(** The [for page_num in range(1, pages + 1)] loop over the page numbers
    still to visit. *)
Fixpoint page_loop (city : str) (pages : Z) (nums : list Z) (st : run)
  : run :=
  match nums with
  | [] => st
  | page_num :: nums' =>
    let url := page_url city page_num in
    let st := print (Fetching page_num pages) st in
    let st := request url st in
    match http_get url with
    | RequestException e =>
      page_loop city pages nums' (print (PageError page_num e) st)  (* continue *)
    | Cards [] =>
      print (NoOffers page_num) st                                  (* break *)
    | Cards offers =>
      let st := print (Found (List.length offers)) st in
      let st := fold_left collect offers st in
      page_loop city pages nums' (sleep st)
    end
  end.

(** [main(city, pages, output_file)] *)
Definition main (city : str) (pages : Z) (output_file : str) : run :=
  let st := print (Starting city) start in
  let st := page_loop city pages (page_numbers pages) st in
  match all_data st with
  | _ :: _ =>
    let st := print (Saving (List.length (all_data st)) output_file) st in
    match io_error output_file with
    | None =>
      let output_dir := dirname output_file in
      let st := match output_dir with
                | [] => st
                | _ => makedirs output_dir st
                end in
      let st := write_rows output_file (CSV_HEADERS :: all_data st) st in
      print (Saved output_file) st
    | Some e => print (WriteError output_file e) st               (* except IOError *)
    end
  | [] => print NothingCollected st
  end.

End Scraper.

(** ** Specification-side notions

    Direct descriptions of what the patterns look for and of what a run
    gathers, against which the matcher and the loop are compared. *)

(** The suffix of [s] from its first character of class [cls]. *)
Fixpoint skip_to (cls : N -> bool) (s : str) : str :=
  match s with
  | c :: s' => if cls c then s else skip_to cls s'
  | [] => []
  end.

(** The longest prefix of [s] made of characters of class [cls]. *)
Fixpoint take_run (cls : N -> bool) (s : str) : str :=
  match s with
  | c :: s' => if cls c then c :: take_run cls s' else []
  | [] => []
  end.

(** The first maximal run of characters of class [cls] in [s]. *)
Definition first_run (cls : N -> bool) (s : str) : option str :=
  match skip_to cls s with
  | [] => None
  | t => Some (take_run cls t)
  end.

(** The next character of [s], if any, is not of class [cls]. *)
Definition stops (cls : N -> bool) (s : str) : Prop :=
  match s with
  | c :: _ => cls c = false
  | [] => True
  end.

(** A positive integer or nothing: [n if n > 0 else None]. *)
Definition positive_or_none (n : Z) : option Z :=
  if 0 <? n then Some n else None.

(** The abbreviated unit token: the letters p, o, k in either case. *)
Definition is_pok (t : str) : Prop :=
  exists a b c, t = [a; b; c]
    /\ letter_p a = true /\ letter_o b = true /\ letter_k c = true.

(** What may follow the number in the whole-string form: nothing, the
    unit token, or the unit token and a full stop. *)
Definition unit_suffix (t : str) : Prop :=
  t = [] \/ is_pok t \/ exists t', is_pok t' /\ t = t' ++ [46%N].

(** [s] holds, after the prefix [pre], the digits [ds], then blanks, if
    any, then the unit token. *)
Definition rooms_occurrence (s pre ds : str) : Prop :=
  exists ws t post,
    s = pre ++ ds ++ ws ++ t ++ post
    /\ ds <> [] /\ forallb isdecimal ds = true
    /\ forallb isspace ws = true /\ is_pok t.

(** The first such occurrence: none starts further left. *)
Definition first_rooms_occurrence (s pre ds : str) : Prop :=
  rooms_occurrence s pre ds
  /\ forall pre' ds', rooms_occurrence s pre' ds' ->
                      (List.length pre <= List.length pre')%nat.

(** Patterns without a capturing group. *)
Fixpoint no_group (r : regex) : bool :=
  match r with
  | Opt r1 => no_group r1
  | Cat r1 r2 => no_group r1 && no_group r2
  | Group _ => false
  | _ => true
  end.

(** A URI scheme at the start of a reference (RFC 3986): a letter, then
    letters, digits, plus, minus or full stop, up to a colon. *)
Definition is_alpha (c : N) : bool :=
  ((65 <=? c) && (c <=? 90))%N || ((97 <=? c) && (c <=? 122))%N.

Definition is_scheme_char (c : N) : bool :=
  is_alpha c || ((48 <=? c) && (c <=? 57))%N
  || (c =? 43)%N || (c =? 45)%N || (c =? 46)%N.

Fixpoint scheme_rest (s : str) : bool :=
  match s with
  | c :: s' => (c =? 58)%N || (is_scheme_char c && scheme_rest s')
  | [] => false
  end.

Definition starts_with_scheme (href : str) : bool :=
  match href with
  | c :: s' => is_alpha c && scheme_rest s'
  | [] => false
  end.

Section Gathering.

Variable lower : str -> str.
Variable http_get : str -> response.
Variable city : str.

(** The rows one page contributes, in the order of its cards. *)
Definition rows_of (offers : list offer) : list row :=
  flat_map (fun o => match parse_listing lower o with
                     | Some ((_ :: _) as r) => [r]
                     | _ => []
                     end) offers.

Definition page_rows (page_num : Z) : list row :=
  match http_get (page_url city page_num) with
  | Cards offers => rows_of offers
  | RequestException _ => []
  end.

Definition no_cards (page_num : Z) : bool :=
  match http_get (page_url city page_num) with
  | Cards [] => true
  | _ => false
  end.

(** The page numbers before the first page without cards. *)
Fixpoint before_empty (nums : list Z) : list Z :=
  match nums with
  | n :: nums' => if no_cards n then [] else n :: before_empty nums'
  | [] => []
  end.

(** The page numbers requested: up to and including the first page
    without cards. *)
Fixpoint through_empty (nums : list Z) : list Z :=
  match nums with
  | n :: nums' => if no_cards n then [n] else n :: through_empty nums'
  | [] => []
  end.

(** All rows of a run, page after page. *)
Definition gathered (nums : list Z) : list row :=
  flat_map page_rows (before_empty nums).

(** The state in which the page loop of [main] ends. *)
Definition after_loop (pages : Z) : run :=
  page_loop lower http_get city pages (page_numbers pages)
            (print (Starting city) start).

End Gathering.

(** ** The command line

    The block under [if __name__ == '__main__']: [argparse] hands over the
    city, the page count and the output path, each with its default when the
    option is not given. *)
Record args : Type := {
  arg_city : str;            (* --city, default 'lodz' *)
  arg_pages : Z;             (* --pages, default 8 *)
  arg_output : option str    (* --output, default None *)
}.

Definition default_args : args :=
  {| arg_city := u "lodz"; arg_pages := 8; arg_output := None |}.

(** [f'data/ogloszenia_{args.city}.csv'] *)
Definition default_output (city : str) : str :=
  u "data/ogloszenia_" ++ city ++ u ".csv".

(** [args.output or f'data/ogloszenia_{args.city}.csv'] *)
Definition output_of (a : args) : str :=
  match arg_output a with
  | Some ((_ :: _) as f) => f
  | _ => default_output (arg_city a)
  end.

(** The call [main(args.city, args.pages, output_file)] of the script. *)
Definition script (lower : str -> str) (http_get : str -> response)
           (io_error : str -> option str) (a : args) : run :=
  main lower http_get io_error (arg_city a) (arg_pages a) (output_of a).

(** ** Further specification-side notions *)


(** The cards found on a page, none when its request fails. *)
Definition cards_of (http_get : str -> response) (city : str)
           (page_num : Z) : list offer :=
  match http_get (page_url city page_num) with
  | Cards offers => offers
  | RequestException _ => []
  end.

(** The request of a page succeeds and finds cards. *)
Definition has_cards (http_get : str -> response) (city : str)
           (page_num : Z) : bool :=
  match http_get (page_url city page_num) with
  | Cards (_ :: _) => true
  | _ => false
  end.

(** A site that answers no request. *)
Definition dead_site (url : str) : response :=
  RequestException (u "Connection refused").

(** The number of full stops of a string. *)
Definition count_stops (s : str) : nat :=
  List.length (filter (fun c => (c =? 46)%N) s).

(** The cell of index [i] of the row an extraction returns. *)
Definition field (i : nat) (r : option row) : option cell :=
  match r with
  | Some cells => nth_error cells i
  | None => None
  end.

(** A numeric cell is empty or holds a positive number. *)
Definition empty_or_positive (c : cell) : Prop :=
  match c with
  | CStr s => s = []
  | CInt n => 0 < n
  | CFloat x => float_pos x = true
  end.

(** ** Sample data for closed examples *)

(** A lower-casing of the letters A to Z only, standing for [str.lower]
    where an example needs a concrete function. *)
Definition ascii_lower (s : str) : str :=
  map (fun c => if ((65 <=? c) && (c <=? 90))%N then (c + 32)%N else c) s.

(** A card with an identifier, a text and, possibly, a link, and nothing
    else. *)
Definition bare_card (id text : str) (href : option str) : offer :=
  {| get_text := text; data_id := Some id; stats := [];
     link_href := href; location_el := None; street_el := None;
     desc_el := None |}.

(** A card with its three stats. *)
Definition full_card (id price area rooms : str) : offer :=
  {| get_text := price ++ area ++ rooms; data_id := Some id;
     stats := [Some price; Some area; Some rooms];
     link_href := Some (u "/o/" ++ id); location_el := Some (u "Łódź");
     street_el := None; desc_el := None |}.

(** A site of two pages: three cards on the first page of Łódź, none on the
    second, and a failed request for everything else. *)
Definition three_cards : list offer :=
  [full_card (u "1") (u "635 000 zł") (u "50,25 m²") (u "3 pok.");
   full_card (u "2") (u "410 000 zł") (u "38 m²") (u "2");
   full_card (u "3") (u "cena do negocjacji") (u "0 m²") (u "kawalerka")].

Definition two_page_site (url : str) : response :=
  if str_eqb url (u "https://adresowo.pl/mieszkania/lodz/_l1")
  then Cards three_cards
  else if str_eqb url (u "https://adresowo.pl/mieszkania/lodz/_l2")
       then Cards []
       else RequestException (u "404 Client Error").

(** A site whose second page fails and whose other pages hold one card. *)
Definition flaky_site (url : str) : response :=
  if str_eqb url (u "https://adresowo.pl/mieszkania/lodz/_l2")
  then RequestException (u "503 Server Error")
  else Cards [full_card url (u "300 000 zł") (u "40 m²") (u "2 pok.")].

Definition disk_ok (path : str) : option str := None.

(** * Properties *)

(** ** Character classes *)

Lemma isspace_inv (c : N) :
  isspace c = true -> In c whitespace_points.
Proof.
  unfold isspace. rewrite existsb_exists.
  intros [x [Hin Heq]]. apply N.eqb_eq in Heq. now subst.
Qed.

Lemma isspace_not_decimal (c : N) :
  isspace c = true -> isdecimal c = false.
Proof.
  intros H. apply isspace_inv in H. unfold whitespace_points in H.
  repeat (destruct H as [H | H]; [subst c; reflexivity |]).
  destruct H.
Qed.

Lemma letter_p_inv (c : N) : letter_p c = true -> c = 112%N \/ c = 80%N.
Proof.
  unfold letter_p. rewrite orb_true_iff, !N.eqb_eq. tauto.
Qed.

Lemma letter_p_not_decimal (c : N) : letter_p c = true -> isdecimal c = false.
Proof. intros H. destruct (letter_p_inv c H); subst; reflexivity. Qed.

Lemma letter_p_not_space (c : N) : letter_p c = true -> isspace c = false.
Proof. intros H. destruct (letter_p_inv c H); subst; reflexivity. Qed.

Lemma isdecimal_value (c : N) :
  isdecimal c = true -> 0 <= digit_value c <= 9.
Proof.
  unfold isdecimal, digit_value, unicode_decimal.
  destruct (find _ decimal_block_starts) as [b |] eqn:E; [| discriminate].
  intros _. apply find_some in E. destruct E as [_ E].
  apply andb_true_iff in E. destruct E as [E1 E2].
  apply N.leb_le in E1. apply N.ltb_lt in E2. lia.
Qed.

Lemma digit_value_nonneg (c : N) : 0 <= digit_value c.
Proof.
  unfold digit_value. destruct (unicode_decimal c); lia.
Qed.

(** ** Lists of characters *)

Lemma forallb_filter_id {X} (f : X -> bool) (l : list X) :
  forallb f (filter f l) = true.
Proof.
  induction l as [| a l IH]; simpl; [reflexivity |].
  destruct (f a) eqn:E; simpl; [rewrite E |]; exact IH.
Qed.

Lemma digits_value_snoc (ds : str) (c : N) :
  digits_value (ds ++ [c]) = digits_value ds * 10 + digit_value c.
Proof. unfold digits_value. now rewrite fold_left_app. Qed.

Lemma int_of_str_digits (ds : str) :
  ds <> [] -> forallb isdecimal ds = true ->
  int_of_str ds = Some (digits_value ds).
Proof.
  intros Hne Hall. unfold int_of_str. destruct ds; [contradiction |].
  now rewrite Hall.
Qed.

Lemma take_run_all (cls : N -> bool) (run tail : str) :
  forallb cls run = true -> stops cls tail ->
  take_run cls (run ++ tail) = run.
Proof.
  induction run as [| c run IH]; simpl; intros Hall Hstop.
  - destruct tail as [| c tail]; simpl in *; [reflexivity | now rewrite Hstop].
  - apply andb_true_iff in Hall. destruct Hall as [Hc Hall].
    rewrite Hc. f_equal. now apply IH.
Qed.

Lemma stops_app (cls : N -> bool) (a b : str) :
  forallb (fun c => negb (cls c)) a = true -> stops cls b ->
  stops cls (a ++ b).
Proof.
  destruct a as [| c a]; simpl; [tauto |].
  intros H _. apply andb_true_iff in H. destruct H as [H _].
  now apply negb_true_iff in H.
Qed.

Lemma forallb_weaken {X} (f g : X -> bool) (l : list X) :
  (forall x, f x = true -> g x = true) ->
  forallb f l = true -> forallb g l = true.
Proof.
  intros Hfg. rewrite !forallb_forall. auto.
Qed.

Lemma spaces_not_decimal (ws : str) :
  forallb isspace ws = true ->
  forallb (fun c => negb (isdecimal c)) ws = true.
Proof.
  apply forallb_weaken. intros c H.
  now rewrite (isspace_not_decimal c H).
Qed.

(** ** The matcher *)

Section MatcherFacts.
Context {A : Type}.
Variable cls : N -> bool.

(** The longest run is tried first: when the continuation accepts what
    follows it, that is the result. *)
Lemma star_loop_greedy (rest : str) :
  forall (pos : nat) (k : nat -> str -> option A) (x : A),
    k (pos + List.length (take_run cls rest))%nat
      (skipn (List.length (take_run cls rest)) rest) = Some x ->
    star_loop cls pos rest k = Some x.
Proof.
  induction rest as [| c rest IH]; simpl; intros pos k x H.
  - now rewrite Nat.add_0_r in H.
  - destruct (cls c); simpl in H.
    + rewrite (IH (S pos) k x); [reflexivity |].
      now rewrite Nat.add_succ_r in H.
    + now rewrite Nat.add_0_r in H.
Qed.

Lemma star_loop_run (run tail : str) (pos : nat)
      (k : nat -> str -> option A) (x : A) :
  forallb cls run = true -> stops cls tail ->
  k (pos + List.length run)%nat tail = Some x ->
  star_loop cls pos (run ++ tail) k = Some x.
Proof.
  intros Hall Hstop Hk. apply star_loop_greedy.
  rewrite (take_run_all cls run tail Hall Hstop).
  rewrite skipn_app, skipn_all, Nat.sub_diag. exact Hk.
Qed.

(** Whatever the loop returns comes from the continuation, after some run
    of characters of the class. *)
Lemma star_loop_sound (rest : str) :
  forall (pos : nat) (k : nat -> str -> option A) (x : A),
    star_loop cls pos rest k = Some x ->
    exists run tail,
      rest = run ++ tail /\ forallb cls run = true
      /\ k (pos + List.length run)%nat tail = Some x.
Proof.
  induction rest as [| c rest IH]; simpl; intros pos k x H.
  - exists [], []. simpl. rewrite Nat.add_0_r. auto.
  - destruct (cls c) eqn:Ec.
    + destruct (star_loop cls (S pos) rest k) as [y |] eqn:E.
      * injection H as ->.
        destruct (IH _ _ _ E) as (run & tail & -> & Hall & Hk).
        exists (c :: run), tail. simpl. rewrite Ec, Hall.
        rewrite Nat.add_succ_r. auto.
      * exists [], (c :: rest). simpl. rewrite Nat.add_0_r. auto.
    + exists [], (c :: rest). simpl. rewrite Nat.add_0_r. auto.
Qed.
End MatcherFacts.

Lemma firstn_take_run (cls : N -> bool) (s : str) :
  firstn (List.length (take_run cls s)) s = take_run cls s.
Proof.
  induction s as [| c s IH]; simpl; [reflexivity |].
  destruct (cls c); simpl; [now f_equal | reflexivity].
Qed.

(** A match of [cls+] at a given offset is the longest run from there. *)
Lemma match_at_plus (cls : N -> bool) (pos : nat) (rest : str) :
  match_at (Plus cls) pos rest =
  match rest with
  | c :: _ =>
    if cls c
    then Some {| m_start := pos; group0 := take_run cls rest; group1 := None |}
    else None
  | [] => None
  end.
Proof.
  unfold match_at. destruct rest as [| c rest]; simpl; [reflexivity |].
  destruct (cls c) eqn:E; [| reflexivity].
  apply star_loop_greedy. do 2 f_equal.
  replace (S pos + List.length (take_run cls rest) - pos)%nat
    with (S (List.length (take_run cls rest))) by lia.
  simpl. f_equal. apply firstn_take_run.
Qed.

(** [re.search] of [cls+] finds the first maximal run. *)
Lemma search_plus_first_run (cls : N -> bool) (s : str) (pos : nat) :
  option_map group0 (search_from (Plus cls) pos s) = first_run cls s.
Proof.
  revert pos. induction s as [| c s IH]; intros pos.
  - reflexivity.
  - unfold search_from; fold search_from. rewrite match_at_plus.
    unfold first_run. simpl. destruct (cls c) eqn:E; simpl.
    + now rewrite E.
    + apply IH.
Qed.

(** Where a search finds its match. *)
Lemma search_from_sound (r : regex) (s : str) :
  forall pos m,
    search_from r pos s = Some m ->
    exists pre rest,
      s = pre ++ rest
      /\ match_at r (pos + List.length pre) rest = Some m.
Proof.
  induction s as [| c s IH]; intros pos m H; simpl in H.
  - destruct (match_at r pos []) eqn:E; [| discriminate].
    injection H as ->. exists [], []. simpl. now rewrite Nat.add_0_r.
  - destruct (match_at r pos (c :: s)) eqn:E.
    + injection H as ->. exists [], (c :: s). simpl. now rewrite Nat.add_0_r.
    + destruct (IH _ _ H) as (pre & rest & -> & Hm).
      exists (c :: pre), rest. simpl. now rewrite Nat.add_succ_r.
Qed.

Lemma search_from_hit (r : regex) (pos : nat) (rest : str) (m : re_match) :
  match_at r pos rest = Some m -> search_from r pos rest = Some m.
Proof.
  intros H. destruct rest; simpl; now rewrite H.
Qed.

(** A search skips the offsets at which nothing matches. *)
Lemma search_from_skip (r : regex) (pre rest : str) :
  forall pos,
    (forall p1 p2, pre = p1 ++ p2 -> p2 <> [] ->
                   match_at r (pos + List.length p1) (p2 ++ rest) = None) ->
    search_from r pos (pre ++ rest)
    = search_from r (pos + List.length pre) rest.
Proof.
  induction pre as [| c pre IH]; intros pos H; simpl.
  - now rewrite Nat.add_0_r.
  - pose proof (H [] (c :: pre) eq_refl ltac:(discriminate)) as H0.
    simpl in H0. rewrite Nat.add_0_r in H0. rewrite H0.
    rewrite IH; [now rewrite Nat.add_succ_r |].
    intros p1 p2 -> Hne.
    specialize (H (c :: p1) p2 eq_refl Hne). simpl in H.
    now rewrite Nat.add_succ_r in H.
Qed.

(** A search returns the match at the first offset that has one. *)
Lemma search_from_first (r : regex) (s : str) :
  forall pos m,
    search_from r pos s = Some m ->
    exists pre rest,
      s = pre ++ rest
      /\ match_at r (pos + List.length pre) rest = Some m
      /\ forall p1 p2, pre = p1 ++ p2 -> p2 <> [] ->
                       match_at r (pos + List.length p1) (p2 ++ rest) = None.
Proof.
  induction s as [| c s IH]; intros pos m H; simpl in H.
  - destruct (match_at r pos []) eqn:E; [| discriminate].
    injection H as ->. exists [], []. simpl. rewrite Nat.add_0_r.
    repeat split; auto. intros p1 p2 Hp Hne.
    destruct p1; destruct p2; try discriminate. contradiction.
  - destruct (match_at r pos (c :: s)) eqn:E.
    + injection H as ->. exists [], (c :: s). simpl. rewrite Nat.add_0_r.
      repeat split; auto. intros p1 p2 Hp Hne.
      destruct p1; destruct p2; try discriminate. contradiction.
    + destruct (IH _ _ H) as (pre & rest & -> & Hm & Hmin).
      exists (c :: pre), rest. simpl. rewrite Nat.add_succ_r.
      repeat split; auto. intros p1 p2 Hp Hne.
      destruct p1 as [| c' p1]; simpl in Hp.
      * subst p2. simpl. now rewrite Nat.add_0_r.
      * injection Hp as <- ->. simpl. rewrite Nat.add_succ_r.
        now apply Hmin.
Qed.

(** A search finds something as soon as some offset has a match. *)
Lemma search_from_finds (r : regex) (pre rest : str) (m : re_match) :
  forall pos,
    match_at r (pos + List.length pre) rest = Some m ->
    exists m', search_from r pos (pre ++ rest) = Some m'.
Proof.
  induction pre as [| c pre IH]; intros pos H; simpl in *.
  - rewrite Nat.add_0_r in H. exists m. now apply search_from_hit.
  - destruct (match_at r pos (c :: pre ++ rest)) as [m0 |];
      [now exists m0 |].
    apply IH. now rewrite Nat.add_succ_r in H.
Qed.

(** ** The room patterns *)

(** Unfolds the matcher on a pattern, leaving the classes and the offsets
    as they are. *)
Ltac unroll :=
  cbn -[Nat.sub firstn isspace isdecimal letter_p letter_o letter_k].

Lemma firstn_exact {X} (l r : list X) (n : nat) :
  n = List.length l -> firstn n (l ++ r) = l.
Proof.
  intros ->. rewrite firstn_app, Nat.sub_diag, firstn_all. simpl.
  apply app_nil_r.
Qed.

Lemma is_pok_stops_decimal (t post : str) :
  is_pok t -> stops isdecimal (t ++ post).
Proof.
  intros (a & b & c & -> & Ha & _). simpl. now apply letter_p_not_decimal.
Qed.

Lemma is_pok_stops_space (t post : str) :
  is_pok t -> stops isspace (t ++ post).
Proof.
  intros (a & b & c & -> & Ha & _). simpl. now apply letter_p_not_space.
Qed.

(** The substring pattern matches at the start of digits, blanks and the
    unit token, and group 1 holds the digits. *)
Lemma fallback_match_complete (pos : nat) (ds ws t post : str) :
  ds <> [] -> forallb isdecimal ds = true ->
  forallb isspace ws = true -> is_pok t ->
  match_at rooms_fallback pos (ds ++ ws ++ t ++ post)
  = Some {| m_start := pos; group0 := ds ++ ws ++ t; group1 := Some ds |}.
Proof.
  intros Hne Hds Hws Ht.
  destruct ds as [| d ds]; [contradiction |].
  simpl in Hds. apply andb_true_iff in Hds. destruct Hds as [Hd Hds].
  unfold match_at, rooms_fallback. unroll. rewrite Hd.
  apply star_loop_run; [exact Hds | |].
  { apply stops_app; [now apply spaces_not_decimal |].
    now apply is_pok_stops_decimal. }
  apply star_loop_run; [exact Hws | now apply is_pok_stops_space |].
  destruct Ht as (a & b & c & -> & Ha & Hb & Hc).
  unroll. rewrite Ha, Hb, Hc. do 2 f_equal.
  - replace (d :: ds ++ ws ++ a :: b :: c :: post)
      with ((d :: ds ++ ws ++ [a; b; c]) ++ post)
      by (simpl; now rewrite <- !app_assoc).
    apply firstn_exact. cbn [Datatypes.length]. rewrite !length_app.
    cbn [Datatypes.length]. lia.
  - f_equal. change (d :: ds ++ ws ++ a :: b :: c :: post)
      with ((d :: ds) ++ ws ++ a :: b :: c :: post).
    apply firstn_exact. cbn [Datatypes.length]. lia.
Qed.

(** Nothing else matches it. *)
Lemma fallback_match_sound (pos : nat) (rest : str) (m : re_match) :
  match_at rooms_fallback pos rest = Some m ->
  exists ds ws t post,
    rest = ds ++ ws ++ t ++ post
    /\ ds <> [] /\ forallb isdecimal ds = true
    /\ forallb isspace ws = true /\ is_pok t
    /\ group1 m = Some ds.
Proof.
  unfold match_at, rooms_fallback. simpl.
  destruct rest as [| d rest]; [discriminate |].
  destruct (isdecimal d) eqn:Hd; [| discriminate].
  intros H. apply star_loop_sound in H.
  destruct H as (ds & tail & -> & Hds & H).
  apply star_loop_sound in H.
  destruct H as (ws & tail' & -> & Hws & H).
  destruct tail' as [| a [| b [| c post]]]; try discriminate;
    try (destruct (letter_p a); discriminate);
    try (destruct (letter_p a); [destruct (letter_o b) |]; discriminate).
  destruct (letter_p a) eqn:Ha; [| discriminate].
  destruct (letter_o b) eqn:Hb; [| discriminate].
  destruct (letter_k c) eqn:Hc; [| discriminate].
  injection H as <-. unroll.
  exists (d :: ds), ws, [a; b; c], post.
  unroll. rewrite Hd, Hds.
  repeat split; auto; try discriminate.
  - now exists a, b, c.
  - f_equal. change (d :: ds ++ ws ++ a :: b :: c :: post)
      with ((d :: ds) ++ ws ++ a :: b :: c :: post).
    apply firstn_exact. cbn [Datatypes.length]. destruct pos; lia.
Qed.

(** With a first occurrence of digits, blanks and the unit token, the
    substring search finds it and group 1 holds its digits. *)
Lemma fallback_search_first (s pre ds : str) :
  first_rooms_occurrence s pre ds ->
  exists m, re_search rooms_fallback s = Some m /\ group1 m = Some ds.
Proof.
  intros [(ws & t & post & -> & Hne & Hds & Hws & Ht) Hmin].
  unfold re_search. rewrite search_from_skip.
  - eexists. split.
    + apply search_from_hit. now apply fallback_match_complete.
    + reflexivity.
  - intros p1 p2 -> Hp2.
    destruct (match_at rooms_fallback (0 + List.length p1)
                       (p2 ++ ds ++ ws ++ t ++ post)) as [m |] eqn:E;
      [| reflexivity].
    exfalso. apply fallback_match_sound in E.
    destruct E as (ds' & ws' & t' & post' & E & Hne' & Hds' & Hws' & Ht' & _).
    assert (Hocc : rooms_occurrence
                     ((p1 ++ p2) ++ ds ++ ws ++ t ++ post) p1 ds').
    { exists ws', t', post'. rewrite <- app_assoc, E. auto. }
    apply Hmin in Hocc. rewrite length_app in Hocc.
    destruct p2; [contradiction | simpl in Hocc; lia].
Qed.

(** Without such an occurrence the substring search finds nothing. *)
Lemma fallback_search_sound (s : str) (m : re_match) :
  re_search rooms_fallback s = Some m ->
  exists pre ds, rooms_occurrence s pre ds /\ group1 m = Some ds.
Proof.
  intros H. apply search_from_sound in H.
  destruct H as (pre & rest & -> & H).
  apply fallback_match_sound in H.
  destruct H as (ds & ws & t & post & -> & Hne & Hds & Hws & Ht & Hg).
  exists pre, ds. split; [| exact Hg]. exists ws, t, post. auto.
Qed.

(** Among the occurrences of digits, blanks and the unit token there is a
    first one. *)
Lemma occurrence_has_first (s pre ds : str) :
  rooms_occurrence s pre ds ->
  exists pre0 ds0, first_rooms_occurrence s pre0 ds0.
Proof.
  intros (ws & t & post & -> & Hne & Hds & Hws & Ht).
  pose proof (fallback_match_complete (0 + List.length pre) ds ws t post
                Hne Hds Hws Ht) as Hm.
  apply search_from_finds in Hm. destruct Hm as (m' & Hm').
  apply search_from_first in Hm'.
  destruct Hm' as (pre0 & rest0 & Hs & Hm0 & Hmin).
  apply fallback_match_sound in Hm0.
  destruct Hm0 as (ds0 & ws0 & t0 & post0 & -> & Hne0 & Hds0 & Hws0 & Ht0 & _).
  exists pre0, ds0. split.
  - exists ws0, t0, post0. auto.
  - intros pre' ds' (ws' & t' & post' & Hs' & Hne' & Hds' & Hws' & Ht').
    destruct (Nat.le_gt_cases (List.length pre0) (List.length pre'))
      as [Hle | Hlt]; [exact Hle | exfalso].
    rewrite Hs in Hs'. apply app_eq_app in Hs'.
    destruct Hs' as (l & [[-> Hl] | [-> Hl]]).
    + rewrite length_app in Hlt.
      assert (Hmt := Hmin pre' l eq_refl).
      destruct l as [| c l]; [simpl in Hlt; lia |].
      specialize (Hmt ltac:(discriminate)).
      rewrite <- Hl in Hmt.
      rewrite (fallback_match_complete _ ds' ws' t' post'
                 Hne' Hds' Hws' Ht') in Hmt.
      discriminate.
    + rewrite length_app in Hlt. lia.
Qed.

(** A pattern without a group leaves group 1 as it found it. *)
Lemma rmatch_no_group {A : Type} (r : regex) :
  no_group r = true ->
  forall pos rest g (k : nat -> str -> option str -> option A) x,
    rmatch r pos rest g k = Some x ->
    exists pos' rest', k pos' rest' g = Some x.
Proof.
  induction r as [| | cls | cls | cls | r1 IH1 | r1 IH1 r2 IH2 | r1 IH1];
    intros Hng pos rest g k x H; simpl in *.
  - destruct (Nat.eqb pos 0); [eauto | discriminate].
  - destruct rest as [| c [| c' rest]]; [eauto | | discriminate].
    destruct (c =? 10)%N; [eauto | discriminate].
  - destruct rest as [| c rest]; [discriminate |].
    destruct (cls c); [eauto | discriminate].
  - apply star_loop_sound in H. destruct H as (run & tail & _ & _ & H). eauto.
  - destruct rest as [| c rest]; [discriminate |].
    destruct (cls c); [| discriminate].
    apply star_loop_sound in H. destruct H as (run & tail & _ & _ & H). eauto.
  - destruct (rmatch r1 pos rest g k) as [y |] eqn:E.
    + injection H as ->. eapply IH1; eauto.
    + eauto.
  - apply andb_true_iff in Hng. destruct Hng as [H1 H2].
    apply (IH1 H1) in H. destruct H as (p' & r' & H).
    eapply IH2; eauto.
  - discriminate.
Qed.

Lemma decimal_not_space (c : N) : isdecimal c = true -> isspace c = false.
Proof.
  intros H. destruct (isspace c) eqn:E; [| reflexivity].
  apply isspace_not_decimal in E. congruence.
Qed.

Lemma unit_suffix_stops_decimal (t : str) :
  unit_suffix t -> stops isdecimal t.
Proof.
  intros [-> | [H | (t' & H & ->)]]; [exact I | |].
  - rewrite <- (app_nil_r t). now apply is_pok_stops_decimal.
  - now apply is_pok_stops_decimal.
Qed.

Lemma unit_suffix_stops_space (t : str) :
  unit_suffix t -> stops isspace t.
Proof.
  intros [-> | [H | (t' & H & ->)]]; [exact I | |].
  - rewrite <- (app_nil_r t). now apply is_pok_stops_space.
  - now apply is_pok_stops_space.
Qed.

(** The start of the whole-string pattern, up to the blanks after the
    number, whatever pattern [r] comes next. *)
Lemma whole_prefix_run {A : Type} (r : regex) (d : N) (ds ws t : str)
      (k : nat -> str -> option str -> option A) (x : A) :
  isdecimal d = true -> forallb isdecimal ds = true ->
  forallb isspace ws = true -> stops isdecimal t -> stops isspace t ->
  rmatch r (1 + List.length ds + List.length ws)%nat t (Some (d :: ds)) k
  = Some x ->
  rmatch (Cat Bol (Cat (Star isspace) (Cat (Group (Plus isdecimal))
            (Cat (Star isspace) r))))
         0 ((d :: ds) ++ ws ++ t) None k = Some x.
Proof.
  intros Hd Hds Hws Hsd Hss Hk.
  pose proof (decimal_not_space d Hd) as Hd'.
  unroll. rewrite Hd', Hd.
  apply star_loop_run;
    [exact Hds | apply stops_app; [now apply spaces_not_decimal | exact Hsd] |].
  apply star_loop_run; [exact Hws | exact Hss |].
  replace (firstn _ _) with (d :: ds); [exact Hk |].
  symmetry. change (d :: ds ++ ws ++ t) with ((d :: ds) ++ ws ++ t).
  apply firstn_exact. cbn [Datatypes.length]. lia.
Qed.

(** The whole-string pattern accepts digits, blanks and an optional unit
    token with an optional full stop, and group 1 holds the digits. *)
Lemma whole_match_complete (ds ws t : str) :
  ds <> [] -> forallb isdecimal ds = true ->
  forallb isspace ws = true -> unit_suffix t ->
  exists m, re_search rooms_pattern (ds ++ ws ++ t) = Some m
            /\ group1 m = Some ds.
Proof.
  intros Hne Hds Hws Ht.
  pose proof (unit_suffix_stops_decimal t Ht) as Hsd.
  pose proof (unit_suffix_stops_space t Ht) as Hss.
  destruct ds as [| d ds]; [contradiction |].
  simpl in Hds. apply andb_true_iff in Hds. destruct Hds as [Hd Hds].
  unfold re_search.
  destruct Ht as [-> | [(a & b & c & -> & Ha & Hb & Hc)
                       | (t' & (a & b & c & -> & Ha & Hb & Hc) & ->)]].
  - eexists. split.
    + apply search_from_hit. unfold match_at, rooms_pattern.
      apply whole_prefix_run; auto. cbn. reflexivity.
    + reflexivity.
  - eexists. split.
    + apply search_from_hit. unfold match_at, rooms_pattern.
      apply whole_prefix_run; auto.
      unroll. rewrite Ha, Hb, Hc. unroll.
      reflexivity.
    + reflexivity.
  - eexists. split.
    + apply search_from_hit. unfold match_at, rooms_pattern.
      apply whole_prefix_run; auto.
      unroll. rewrite Ha, Hb, Hc. unroll.
      reflexivity.
    + reflexivity.
Qed.

(** Whatever the whole-string pattern matches starts, after blanks, with
    digits, and these are what the group holds when [r] goes on. *)
Lemma whole_prefix_sound {A : Type} (r : regex) (pos : nat) (rest : str)
      (k : nat -> str -> option str -> option A) (x : A) :
  rmatch (Cat Bol (Cat (Star isspace) (Cat (Group (Plus isdecimal)) r)))
         pos rest None k = Some x ->
  exists ws ds tail p,
    rest = ws ++ ds ++ tail /\ ds <> [] /\ forallb isdecimal ds = true
    /\ rmatch r p tail (Some ds) k = Some x.
Proof.
  intros H. cbn [rmatch] in H.
  destruct (Nat.eqb pos 0); [| discriminate].
  apply star_loop_sound in H. destruct H as (ws & tail1 & -> & _ & H).
  destruct tail1 as [| d tail1]; [discriminate |].
  destruct (isdecimal d) eqn:Hd; [| discriminate].
  apply star_loop_sound in H. destruct H as (ds & tail & -> & Hds & H).
  exists ws, (d :: ds), tail. eexists.
  repeat split; [discriminate | simpl; now rewrite Hd, Hds |].
  replace (firstn _ _) with (d :: ds) in H; [exact H |].
  symmetry. change (d :: ds ++ tail) with ((d :: ds) ++ tail).
  apply firstn_exact. cbn [Datatypes.length]. lia.
Qed.

Lemma whole_match_sound (pos : nat) (rest : str) (m : re_match) :
  match_at rooms_pattern pos rest = Some m ->
  exists ws ds tail,
    rest = ws ++ ds ++ tail /\ ds <> [] /\ forallb isdecimal ds = true
    /\ group1 m = Some ds.
Proof.
  unfold match_at, rooms_pattern. intros H.
  apply whole_prefix_sound in H.
  destruct H as (ws & ds & tail & p & -> & Hne & Hds & H).
  apply rmatch_no_group in H; [| reflexivity].
  destruct H as (p' & r' & H). injection H as <-.
  exists ws, ds, tail. auto.
Qed.

(** ** Stripping *)

Lemma lstrip_incl (s : str) (c : N) : In c (lstrip s) -> In c s.
Proof.
  induction s as [| a s IH]; simpl; [tauto |].
  destruct (isspace a); simpl; tauto.
Qed.

Lemma strip_incl (s : str) (c : N) : In c (strip s) -> In c s.
Proof.
  unfold strip, rstrip. intros H.
  apply in_rev, lstrip_incl, in_rev, lstrip_incl in H. exact H.
Qed.

Lemma no_digit_no_match (s : str) :
  forallb (fun c => negb (isdecimal c)) s = true ->
  forall ds pre tail, s = pre ++ ds ++ tail ->
                      forallb isdecimal ds = true -> ds = [].
Proof.
  intros Hs ds pre tail -> Hds. destruct ds as [| d ds]; [reflexivity |].
  rewrite !forallb_app in Hs. simpl in *.
  destruct (isdecimal d); simpl in *;
    [rewrite andb_false_r in Hs |]; discriminate.
Qed.

(** ** [_parse_rooms] *)

Lemma parse_rooms_whole (s ds ws t : str) :
  strip s = ds ++ ws ++ t ->
  ds <> [] -> forallb isdecimal ds = true ->
  forallb isspace ws = true -> unit_suffix t ->
  _parse_rooms s = positive_or_none (digits_value ds).
Proof.
  intros Hs Hne Hds Hws Ht.
  destruct (whole_match_complete ds ws t Hne Hds Hws Ht) as (m & Hm & Hg).
  unfold _parse_rooms. destruct s as [| c s].
  - destruct ds; [contradiction | discriminate].
  - cbv zeta. rewrite Hs, Hm, Hg. simpl int_of_group.
    now rewrite (int_of_str_digits ds Hne Hds).
Qed.

Lemma parse_rooms_fallback (s pre ds : str) :
  re_search rooms_pattern (strip s) = None ->
  first_rooms_occurrence s pre ds ->
  _parse_rooms s = positive_or_none (digits_value ds).
Proof.
  intros H1 Hocc.
  destruct (fallback_search_first s pre ds Hocc) as (m & Hm & Hg).
  destruct Hocc as [(ws & t & post & Hs & Hne & Hds & _) _].
  unfold _parse_rooms. destruct s as [| c s].
  - destruct pre; [destruct ds; [contradiction |] |]; discriminate.
  - cbv zeta. rewrite H1, Hm, Hg. simpl int_of_group.
    now rewrite (int_of_str_digits ds Hne Hds).
Qed.

Lemma parse_rooms_nothing (s : str) :
  re_search rooms_pattern (strip s) = None ->
  (forall pre ds, ~ rooms_occurrence s pre ds) ->
  _parse_rooms s = None.
Proof.
  intros H1 Hno. unfold _parse_rooms. destruct s as [| c s]; [reflexivity |].
  cbv zeta. rewrite H1.
  destruct (re_search rooms_fallback (c :: s)) as [m |] eqn:E; [| reflexivity].
  apply fallback_search_sound in E. destruct E as (pre & ds & Hocc & _).
  now apply Hno in Hocc.
Qed.

Lemma parse_rooms_positive (s : str) (n : Z) :
  _parse_rooms s = Some n -> 0 < n.
Proof.
  unfold _parse_rooms. destruct s as [| c s]; [discriminate |]. cbv zeta.
  destruct (match re_search rooms_pattern (strip (c :: s)) with
            | Some _ => _ | None => _ end) as [m |]; [| discriminate].
  destruct (int_of_group (group1 m)) as [k |]; [| discriminate].
  destruct (0 <? k) eqn:E; [| discriminate].
  intros H. injection H as <-. now apply Z.ltb_lt.
Qed.

Lemma parse_rooms_no_digit (s : str) :
  forallb (fun c => negb (isdecimal c)) s = true ->
  _parse_rooms s = None.
Proof.
  intros Hs.
  assert (H1 : re_search rooms_pattern (strip s) = None).
  { destruct (re_search rooms_pattern (strip s)) as [m |] eqn:E;
      [| reflexivity].
    exfalso. apply search_from_sound in E.
    destruct E as (pre & rest & Hst & E).
    apply whole_match_sound in E.
    destruct E as (ws & ds & tail & -> & Hne & Hds & _).
    destruct ds as [| d ds]; [contradiction |].
    assert (Hin : In d s).
    { apply strip_incl. rewrite Hst. rewrite !in_app_iff. simpl. auto. }
    simpl in Hds. apply andb_true_iff in Hds. destruct Hds as [Hd _].
    rewrite forallb_forall in Hs. apply Hs in Hin.
    rewrite Hd in Hin. discriminate. }
  apply parse_rooms_nothing; [exact H1 |].
  intros pre ds (ws & t & post & E & Hne & Hds & _).
  apply Hne. now apply (no_digit_no_match s Hs ds pre (ws ++ t ++ post)).
Qed.

(** ** [_parse_price] *)

Lemma parse_price_eq (s : str) :
  _parse_price s =
  match sub_non_digits s with
  | [] => None
  | ds => positive_or_none (digits_value ds)
  end.
Proof.
  unfold _parse_price. destruct s as [| c s]; [reflexivity |].
  cbv zeta. destruct (sub_non_digits (c :: s)) as [| d ds] eqn:E;
    [reflexivity |].
  rewrite int_of_str_digits; [reflexivity | discriminate |].
  rewrite <- E. apply forallb_filter_id.
Qed.

(** C2: [_parse_price] removes every character that is not a digit and
    returns the integer the remaining digits spell when it is positive, and
    nothing otherwise: nothing when no digit remains and nothing when the
    value is not positive.  "635 000 zł" gives 635000; "0 zł", "" and "zł"
    give nothing. *)
Theorem parse_price_spec :
  (forall s, _parse_price s =
             match sub_non_digits s with
             | [] => None
             | ds => positive_or_none (digits_value ds)
             end)
  /\ (forall s c, In c (sub_non_digits s) <-> In c s /\ isdecimal c = true)
  /\ (forall s, sub_non_digits s = [] -> _parse_price s = None)
  /\ (forall s, digits_value (sub_non_digits s) <= 0 -> _parse_price s = None)
  /\ (forall s, 0 < digits_value (sub_non_digits s) ->
                _parse_price s = Some (digits_value (sub_non_digits s)))
  /\ (forall s n, _parse_price s = Some n -> 0 < n)
  /\ (forall ds c, digits_value (ds ++ [c])
                   = digits_value ds * 10 + digit_value c)
  /\ (forall c, isdecimal c = true -> 0 <= digit_value c <= 9)
  /\ _parse_price (u "635 000 zł") = Some 635000
  /\ _parse_price (u "0 zł") = None
  /\ _parse_price (u "") = None
  /\ _parse_price (u "zł") = None.
Proof.
  split; [exact parse_price_eq |].
  split.
  { intros s c. unfold sub_non_digits. apply filter_In. }
  split.
  { intros s H. now rewrite parse_price_eq, H. }
  split.
  { intros s H. rewrite parse_price_eq.
    destruct (sub_non_digits s) as [| d ds]; [reflexivity |].
    unfold positive_or_none.
    destruct (0 <? digits_value (d :: ds)) eqn:E; [| reflexivity].
    apply Z.ltb_lt in E. lia. }
  split.
  { intros s H. rewrite parse_price_eq.
    destruct (sub_non_digits s) as [| d ds]; [discriminate |].
    unfold positive_or_none. apply Z.ltb_lt in H. now rewrite H. }
  split.
  { intros s n. rewrite parse_price_eq.
    destruct (sub_non_digits s) as [| d ds]; [discriminate |].
    unfold positive_or_none.
    destruct (0 <? digits_value (d :: ds)) eqn:E; [| discriminate].
    intros H. injection H as <-. now apply Z.ltb_lt. }
  split; [exact digits_value_snoc |].
  split; [exact isdecimal_value |].
  repeat split.
Qed.

Lemma parse_price_spec_witness :
  0 < digits_value (sub_non_digits (u "635 000 zł"))
  /\ _parse_price (u "635 000 zł")
     = Some (digits_value (sub_non_digits (u "635 000 zł"))).
Proof.
  split.
  - reflexivity.
  - apply (proj1 (proj2 (proj2 (proj2 (proj2 parse_price_spec))))).
    reflexivity.
Defined.

(** ** [_parse_area] *)

Lemma parse_area_eq (s : str) :
  _parse_area s =
  match first_run digit_or_stop (replace_char 44 46 s) with
  | None => None
  | Some t =>
    match float_of_str t with
    | Some x => if float_pos x then Some x else None
    | None => None
    end
  end.
Proof.
  unfold _parse_area, re_search, area_pattern.
  destruct s as [| c s]; [reflexivity |]. cbv zeta.
  rewrite <- (search_plus_first_run digit_or_stop _ 0).
  destruct (search_from (Plus digit_or_stop) 0 (replace_char 44 46 (c :: s)));
    reflexivity.
Qed.

(** C4: [_parse_area] turns commas into full stops, takes the first run of
    digits and full stops and reads it as a float; the result is absent when
    there is no such run, when the run is no number, and when the number is
    not positive.  "50 m²" gives 50.0, "50,25 m²" gives 50.25, "0 m²" gives
    nothing. *)
Theorem parse_area_spec :
  (forall s, _parse_area s =
             match first_run digit_or_stop (replace_char 44 46 s) with
             | None => None
             | Some t =>
               match float_of_str t with
               | Some x => if float_pos x then Some x else None
               | None => None
               end
             end)
  /\ (forall s x, _parse_area s = Some x -> float_pos x = true)
  /\ (exists x, _parse_area (u "50 m²") = Some x /\ float_is x 50 1)
  /\ (exists x, _parse_area (u "50,25 m²") = Some x /\ float_is x 5025 100)
  /\ _parse_area (u "0 m²") = None.
Proof.
  split; [exact parse_area_eq |].
  split.
  { intros s x. rewrite parse_area_eq.
    destruct (first_run _ _) as [t |]; [| discriminate].
    destruct (float_of_str t) as [y |]; [| discriminate].
    destruct (float_pos y) eqn:E; [| discriminate].
    intros H. injection H as <-. exact E. }
  split.
  { exists (S754_finite false 7036874417766400 (-47)).
    split; vm_compute; reflexivity. }
  split.
  { exists (S754_finite false 7072058789855232 (-47)).
    split; vm_compute; reflexivity. }
  vm_compute. reflexivity.
Qed.

Lemma parse_area_spec_witness :
  _parse_area (u "50,25 m²") = Some (S754_finite false 7072058789855232 (-47))
  /\ float_pos (S754_finite false 7072058789855232 (-47)) = true.
Proof.
  assert (H : _parse_area (u "50,25 m²")
              = Some (S754_finite false 7072058789855232 (-47)))
    by (vm_compute; reflexivity).
  split.
  - exact H.
  - exact (proj1 (proj2 parse_area_spec) _ _ H).
Defined.

(** C3: [_parse_rooms] matches in two stages.  The whole-string pattern
    accepts, in the stripped text, an integer alone or an integer followed
    by the unit token "pok" with an optional full stop; when it fails, the
    substring search takes the first integer that stands, with blanks or
    none in between, before the unit token, anywhere in the text; a result
    that is not positive and a text with neither form are absent.  "3",
    "3 pok." and "3 pok" give 3; "kawalerka" and "0" give nothing. *)
Theorem parse_rooms_spec :
  (forall s ds ws t,
      strip s = ds ++ ws ++ t ->
      ds <> [] -> forallb isdecimal ds = true ->
      forallb isspace ws = true -> unit_suffix t ->
      _parse_rooms s = positive_or_none (digits_value ds))
  /\ (forall s pre ds,
         re_search rooms_pattern (strip s) = None ->
         first_rooms_occurrence s pre ds ->
         _parse_rooms s = positive_or_none (digits_value ds))
  /\ (forall s,
         re_search rooms_pattern (strip s) = None ->
         (forall pre ds, ~ rooms_occurrence s pre ds) ->
         _parse_rooms s = None)
  /\ (forall s, forallb (fun c => negb (isdecimal c)) s = true ->
                _parse_rooms s = None)
  /\ (forall s n, _parse_rooms s = Some n -> 0 < n)
  /\ _parse_rooms (u "3") = Some 3
  /\ _parse_rooms (u "3 pok.") = Some 3
  /\ _parse_rooms (u "3 pok") = Some 3
  /\ _parse_rooms (u "kawalerka") = None
  /\ _parse_rooms (u "0") = None.
Proof.
  split; [exact parse_rooms_whole |].
  split; [exact parse_rooms_fallback |].
  split; [exact parse_rooms_nothing |].
  split; [exact parse_rooms_no_digit |].
  split; [exact parse_rooms_positive |].
  repeat split; vm_compute; reflexivity.
Qed.

Lemma parse_rooms_spec_witness :
  strip (u " 4 Pok. ") = u "4" ++ u " " ++ u "Pok."
  /\ _parse_rooms (u " 4 Pok. ") = positive_or_none (digits_value (u "4")).
Proof.
  split.
  - reflexivity.
  - apply (proj1 parse_rooms_spec (u " 4 Pok. ") (u "4") (u " ") (u "Pok.")).
    + reflexivity.
    + discriminate.
    + reflexivity.
    + reflexivity.
    + right. right. exists (u "Pok"). split.
      * exists 80%N, 111%N, 107%N. repeat split.
      * reflexivity.
Defined.

(** C10: when the whole-string room pattern fails on a text that holds,
    anywhere, digits followed by blanks (or none) and the letters "pok" in
    either case, [_parse_rooms] returns the integer of the first such place
    when it is positive, whatever text stands before and after it:
    "13 pok extra" gives 13. *)
Theorem parse_rooms_substring_fallback :
  (forall s pre ds,
      re_search rooms_pattern (strip s) = None ->
      first_rooms_occurrence s pre ds ->
      0 < digits_value ds ->
      _parse_rooms s = Some (digits_value ds))
  /\ (forall s pre ds,
         re_search rooms_pattern (strip s) = None ->
         rooms_occurrence s pre ds ->
         exists pre0 ds0,
           first_rooms_occurrence s pre0 ds0
           /\ _parse_rooms s = positive_or_none (digits_value ds0))
  /\ re_search rooms_pattern (strip (u "13 pok extra")) = None
  /\ _parse_rooms (u "13 pok extra") = Some 13.
Proof.
  split; [| split].
  - intros s pre ds H1 Hocc Hpos.
    rewrite (parse_rooms_fallback s pre ds H1 Hocc).
    unfold positive_or_none. apply Z.ltb_lt in Hpos. now rewrite Hpos.
  - intros s pre ds H1 Hocc.
    destruct (occurrence_has_first s pre ds Hocc) as (pre0 & ds0 & H0).
    exists pre0, ds0. split; [exact H0 |].
    now apply (parse_rooms_fallback s pre0 ds0).
  - split; vm_compute; reflexivity.
Qed.

Lemma parse_rooms_substring_fallback_witness :
  re_search rooms_pattern (strip (u "13 POK extra")) = None
  /\ first_rooms_occurrence (u "13 POK extra") [] (u "13")
  /\ 0 < digits_value (u "13")
  /\ _parse_rooms (u "13 POK extra") = Some (digits_value (u "13")).
Proof.
  assert (Hocc : first_rooms_occurrence (u "13 POK extra") [] (u "13")).
  { split.
    - exists (u " "), (u "POK"), (u " extra").
      repeat split; try discriminate.
      exists 80%N, 79%N, 75%N. repeat split.
    - intros pre' ds' _. simpl. lia. }
  split; [reflexivity |].
  split; [exact Hocc |].
  split; [reflexivity |].
  apply (proj1 parse_rooms_substring_fallback (u "13 POK extra") [] (u "13"));
    [reflexivity | exact Hocc | reflexivity].
Defined.

(** ** Substrings *)

Lemma startswith_iff (p s : str) :
  startswith p s = true <-> exists post, s = p ++ post.
Proof.
  revert s. induction p as [| a p IH]; intros s; simpl.
  - split; [intros _; now exists s | reflexivity].
  - destruct s as [| b s].
    + split; [discriminate | intros [post H]; discriminate].
    + rewrite andb_true_iff, N.eqb_eq, IH. split.
      * intros [-> [post ->]]. now exists post.
      * intros [post H]. injection H as -> ->. split; [reflexivity |].
        now exists post.
Qed.

Lemma str_contains_iff (p s : str) :
  str_contains p s = true <-> exists pre post, s = pre ++ p ++ post.
Proof.
  induction s as [| c s IH]; simpl.
  - rewrite orb_false_r, startswith_iff. split.
    + intros [post H]. now exists [], post.
    + intros (pre & post & H). destruct pre; [now exists post |].
      discriminate.
  - rewrite orb_true_iff, startswith_iff, IH. split.
    + intros [[post H] | (pre & post & ->)].
      * now exists [], post.
      * now exists (c :: pre), post.
    + intros (pre & post & H). destruct pre as [| c' pre].
      * left. now exists post.
      * right. injection H as -> ->. now exists pre, post.
Qed.

(** ** [parse_listing] *)

Lemma parse_price_positive (s : str) (n : Z) :
  _parse_price s = Some n -> 0 < n.
Proof.
  rewrite parse_price_eq.
  destruct (sub_non_digits s) as [| d ds]; [discriminate |].
  unfold positive_or_none.
  destruct (0 <? digits_value (d :: ds)) eqn:E; [| discriminate].
  intros H. injection H as <-. now apply Z.ltb_lt.
Qed.

Lemma parse_area_positive (s : str) (x : float) :
  _parse_area s = Some x -> float_pos x = true.
Proof.
  rewrite parse_area_eq.
  destruct (first_run _ _) as [t |]; [| discriminate].
  destruct (float_of_str t) as [y |]; [| discriminate].
  destruct (float_pos y) eqn:E; [| discriminate].
  intros H. injection H as <-. exact E.
Qed.

Lemma int_cell_positive (x : option Z) :
  (forall n, x = Some n -> 0 < n) -> empty_or_positive (int_cell x).
Proof.
  destruct x as [n |]; simpl; [intros H; now apply H | reflexivity].
Qed.

Lemma float_cell_positive (x : option float) :
  (forall y, x = Some y -> float_pos y = true) ->
  empty_or_positive (float_cell x).
Proof.
  destruct x as [y |]; simpl; [intros H; now apply H | reflexivity].
Qed.

Section ListingFacts.

Variable lower : str -> str.

(** Every card gives a row of ten cells. *)
Lemma parse_listing_row (o : offer) :
  exists id p a r loc street priv desc link,
    parse_listing lower o
    = Some [CStr id; p; a; r; CStr loc; CStr street; CStr (u "Mieszkanie");
            CStr priv; CStr desc; CStr link]
    /\ p = int_cell (_parse_price (stat_text (stats o) 0))
    /\ a = float_cell (_parse_area (stat_text (stats o) 1))
    /\ r = int_cell (_parse_rooms (stat_text (stats o) 2)).
Proof.
  unfold parse_listing. repeat eexists.
Qed.

(** C5, as amended: the link cell is the reference itself when it starts
    with the characters "http", the base URL followed by the reference when
    it is not empty and starts otherwise, and the empty string when the card
    has no link element or an empty reference.  "/oferta/123" resolves to
    "https://adresowo.pl/oferta/123". *)
Theorem link_resolution_by_http_prefix :
  forall o,
    (link_href o = None ->
     field 9 (parse_listing lower o) = Some (CStr []))
    /\ (link_href o = Some [] ->
        field 9 (parse_listing lower o) = Some (CStr []))
    /\ (forall href,
           link_href o = Some href -> href <> [] ->
           startswith (u "http") href = false ->
           field 9 (parse_listing lower o) = Some (CStr (BASE_URL ++ href)))
    /\ (forall href,
           link_href o = Some href ->
           startswith (u "http") href = true ->
           field 9 (parse_listing lower o) = Some (CStr href))
    /\ (link_href o = Some (u "/oferta/123") ->
        field 9 (parse_listing lower o)
        = Some (CStr (u "https://adresowo.pl/oferta/123"))).
Proof.
  intros o. unfold parse_listing. cbn [field nth_error].
  split; [now intros -> |].
  split; [now intros -> |].
  split.
  { intros href -> Hne Hs. destruct href as [| c href]; [contradiction |].
    now rewrite Hs. }
  split.
  { intros href -> Hs. destruct href as [| c href]; [discriminate |].
    now rewrite Hs. }
  now intros ->.
Qed.

(** C6: a card without any of the three stat elements still gives a row,
    made from its other fields, whose price, area and rooms cells are
    empty; and in every row each of these three cells is the empty string
    when its text does not parse and a positive number otherwise, never
    zero. *)
Theorem missing_stats_give_empty_cells :
  forall o,
    (stats o = [] ->
     exists id loc street priv desc link,
       parse_listing lower o
       = Some [CStr id; CStr []; CStr []; CStr []; CStr loc; CStr street;
               CStr (u "Mieszkanie"); CStr priv; CStr desc; CStr link])
    /\ (forall i, nth_error (stats o) i = None -> stat_text (stats o) i = [])
    /\ field 1 (parse_listing lower o)
       = Some (int_cell (_parse_price (stat_text (stats o) 0)))
    /\ field 2 (parse_listing lower o)
       = Some (float_cell (_parse_area (stat_text (stats o) 1)))
    /\ field 3 (parse_listing lower o)
       = Some (int_cell (_parse_rooms (stat_text (stats o) 2)))
    /\ (_parse_price (stat_text (stats o) 0) = None ->
        field 1 (parse_listing lower o) = Some (CStr []))
    /\ (_parse_area (stat_text (stats o) 1) = None ->
        field 2 (parse_listing lower o) = Some (CStr []))
    /\ (_parse_rooms (stat_text (stats o) 2) = None ->
        field 3 (parse_listing lower o) = Some (CStr []))
    /\ (forall c, field 1 (parse_listing lower o) = Some c ->
                  empty_or_positive c /\ c <> CInt 0)
    /\ (forall c, field 2 (parse_listing lower o) = Some c ->
                  empty_or_positive c
                  /\ forall sign, c <> CFloat (S754_zero sign))
    /\ (forall c, field 3 (parse_listing lower o) = Some c ->
                  empty_or_positive c /\ c <> CInt 0).
Proof.
  intros o. unfold parse_listing. cbn [field nth_error].
  split.
  { intros ->. repeat eexists. }
  split.
  { intros i H. unfold stat_text. now rewrite H. }
  do 3 (split; [reflexivity |]).
  do 3 (split; [now intros -> |]).
  split; [| split].
  - intros c H. injection H as <-.
    assert (Hp := int_cell_positive _ (parse_price_positive
                                         (stat_text (stats o) 0))).
    split; [exact Hp |]. intros E. rewrite E in Hp. simpl in Hp. lia.
  - intros c H. injection H as <-.
    assert (Hp := float_cell_positive _ (parse_area_positive
                                           (stat_text (stats o) 1))).
    split; [exact Hp |]. intros sign E. rewrite E in Hp.
    destruct sign; discriminate.
  - intros c H. injection H as <-.
    assert (Hp := int_cell_positive _ (parse_rooms_positive
                                         (stat_text (stats o) 2))).
    split; [exact Hp |]. intros E. rewrite E in Hp. simpl in Hp. lia.
Qed.

(** C7: the "Bez Pośredników" cell is "Tak" exactly when the lower-cased
    full text of the card contains "bez pośredników", and "Nie" otherwise;
    so it depends on the text only through its lower-cased form, and not on
    what stands around the phrase. *)
Theorem private_listing_by_marker :
  (forall o,
      field 7 (parse_listing lower o) = Some (CStr (u "Tak"))
      <-> exists pre post,
          lower (get_text o) = pre ++ u "bez pośredników" ++ post)
  /\ (forall o,
         field 7 (parse_listing lower o) = Some (CStr (u "Nie"))
         <-> ~ exists pre post,
               lower (get_text o) = pre ++ u "bez pośredników" ++ post)
  /\ (forall o1 o2,
         lower (get_text o1) = lower (get_text o2) ->
         field 7 (parse_listing lower o1) = field 7 (parse_listing lower o2)).
Proof.
  split; [| split].
  - intros o. rewrite <- str_contains_iff.
    unfold parse_listing. cbn [field nth_error].
    destruct (str_contains _ _); split.
    + reflexivity.
    + reflexivity.
    + intros H. vm_compute in H. discriminate.
    + discriminate.
  - intros o. rewrite <- str_contains_iff.
    unfold parse_listing. cbn [field nth_error].
    destruct (str_contains _ _); split.
    + intros H. vm_compute in H. discriminate.
    + intros H. now contradiction H.
    + intros _ H. discriminate.
    + reflexivity.
  - intros o1 o2 H. unfold parse_listing. cbn [field nth_error].
    now rewrite H.
Qed.

End ListingFacts.

(** C5, as stated, fails on the code: a reference with the scheme ftp is
    absolute and still gets the base URL in front, and a relative reference
    whose first characters are "http" is left as it is. *)
Lemma link_scheme_counterexample :
  starts_with_scheme (u "ftp://adresowo.pl/plan.pdf") = true
  /\ field 9 (parse_listing ascii_lower
                (bare_card (u "7") (u "Plan")
                           (Some (u "ftp://adresowo.pl/plan.pdf"))))
     = Some (CStr (u "https://adresowo.plftp://adresowo.pl/plan.pdf"))
  /\ starts_with_scheme (u "http-oferty/123") = false
  /\ field 9 (parse_listing ascii_lower
                (bare_card (u "8") (u "Oferta") (Some (u "http-oferty/123"))))
     = Some (CStr (u "http-oferty/123")).
Proof.
  split; [vm_compute; reflexivity |].
  split; [vm_compute; reflexivity |].
  split; vm_compute; reflexivity.
Qed.

Lemma link_resolution_by_http_prefix_witness :
  link_href (bare_card (u "9") (u "Oferta") (Some (u "/oferta/123")))
  = Some (u "/oferta/123")
  /\ u "/oferta/123" <> []
  /\ startswith (u "http") (u "/oferta/123") = false
  /\ field 9 (parse_listing ascii_lower
                (bare_card (u "9") (u "Oferta") (Some (u "/oferta/123"))))
     = Some (CStr (BASE_URL ++ u "/oferta/123")).
Proof.
  split; [reflexivity |].
  split; [vm_compute; discriminate |].
  split; [vm_compute; reflexivity |].
  apply (proj1 (proj2 (proj2
           (link_resolution_by_http_prefix ascii_lower
              (bare_card (u "9") (u "Oferta") (Some (u "/oferta/123"))))))
           (u "/oferta/123")).
  - reflexivity.
  - vm_compute; discriminate.
  - vm_compute; reflexivity.
Defined.

Lemma missing_stats_give_empty_cells_witness :
  stats (bare_card (u "9") (u "Oferta bez zdjęć") None) = []
  /\ exists id loc street priv desc link,
      parse_listing ascii_lower (bare_card (u "9") (u "Oferta bez zdjęć") None)
      = Some [CStr id; CStr []; CStr []; CStr []; CStr loc; CStr street;
              CStr (u "Mieszkanie"); CStr priv; CStr desc; CStr link].
Proof.
  split; [reflexivity |].
  apply (proj1 (missing_stats_give_empty_cells ascii_lower
                  (bare_card (u "9") (u "Oferta bez zdjęć") None))).
  reflexivity.
Defined.

Lemma private_listing_by_marker_witness :
  ascii_lower (get_text (bare_card (u "1") (u "Oferta BEZ pośredników!") None))
  = ascii_lower (get_text (bare_card (u "2") (u "oferta bez pośredników!") None))
  /\ field 7 (parse_listing ascii_lower
                (bare_card (u "1") (u "Oferta BEZ pośredników!") None))
     = field 7 (parse_listing ascii_lower
                  (bare_card (u "2") (u "oferta bez pośredników!") None)).
Proof.
  split; [vm_compute; reflexivity |].
  apply (proj2 (proj2 (private_listing_by_marker ascii_lower))).
  vm_compute; reflexivity.
Defined.

(** ** The page loop *)

Section DriverFacts.

Variable lower : str -> str.
Variable http_get : str -> response.
Variable io_error : str -> option str.

(** A card always yields its row, so the inner loop appends one row per
    card. *)
Lemma collect_appends (st : run) (o : offer) :
  exists r, parse_listing lower o = Some r
            /\ List.length r = 10%nat
            /\ collect lower st o = append r st.
Proof.
  unfold collect, parse_listing. eexists. repeat split.
Qed.

Lemma rows_of_cons (o : offer) (offers : list offer) :
  exists r, parse_listing lower o = Some r
            /\ rows_of lower (o :: offers) = r :: rows_of lower offers.
Proof.
  unfold rows_of, parse_listing. simpl. eexists. split; reflexivity.
Qed.

Lemma rows_of_length (offers : list offer) :
  List.length (rows_of lower offers) = List.length offers.
Proof.
  induction offers as [| o offers IH]; [reflexivity |].
  destruct (rows_of_cons o offers) as (r & _ & ->). simpl. now rewrite IH.
Qed.

Lemma rows_of_in (offers : list offer) (r : row) :
  In r (rows_of lower offers) ->
  exists o, In o offers /\ parse_listing lower o = Some r.
Proof.
  induction offers as [| o offers IH]; [intros [] |].
  destruct (rows_of_cons o offers) as (r' & Hr' & ->).
  intros [<- | H].
  - exists o. split; [now left | exact Hr'].
  - destruct (IH H) as (o' & Hin & Ho'). exists o'. split; [now right | auto].
Qed.

Lemma fold_collect (offers : list offer) :
  forall st,
    fold_left (collect lower) offers st
    = {| all_data := all_data st ++ rows_of lower offers;
         requests := requests st; printed := printed st; naps := naps st;
         made_dirs := made_dirs st; written := written st |}.
Proof.
  induction offers as [| o offers IH]; intros st.
  - simpl. rewrite app_nil_r. now destruct st.
  - cbn [fold_left]. rewrite IH.
    destruct (collect_appends st o) as (r & Hr & _ & ->).
    destruct (rows_of_cons o offers) as (r' & Hr' & ->).
    assert (r' = r) as -> by congruence.
    simpl. now rewrite <- app_assoc.
Qed.

Section OneCity.

Variable city : str.
Variable pages : Z.

#[local] Abbreviation loop := (page_loop lower http_get city pages).
#[local] Abbreviation url := (page_url city).

(** What the loop leaves in the accumulator and which pages it requests. *)
Lemma page_loop_effects (nums : list Z) :
  forall st,
    all_data (loop nums st)
    = all_data st ++ gathered lower http_get city nums
    /\ requests (loop nums st)
       = requests st ++ map url (through_empty http_get city nums)
    /\ written (loop nums st) = written st
    /\ made_dirs (loop nums st) = made_dirs st.
Proof.
  unfold gathered.
  induction nums as [| n nums IH]; intros st.
  - simpl. rewrite !app_nil_r. auto.
  - cbn [page_loop before_empty through_empty]. unfold no_cards.
    destruct (http_get (url n)) as [e | [| o offers]] eqn:E.
    + destruct (IH (print (PageError n e)
                      (request (url n) (print (Fetching n pages) st))))
        as (H1 & H2 & H3 & H4).
      rewrite H1, H2, H3, H4. cbn [flat_map map]. unfold page_rows.
      rewrite E. simpl. rewrite <- app_assoc. auto.
    + simpl. rewrite app_nil_r. auto.
    + rewrite fold_collect.
      match goal with |- context [loop nums ?s] =>
        destruct (IH s) as (H1 & H2 & H3 & H4) end.
      rewrite H1, H2, H3, H4. cbn [flat_map map]. unfold page_rows.
      rewrite E. simpl. rewrite <- !app_assoc. auto.
Qed.

(** The loop only adds to what was printed. *)
Lemma page_loop_keeps_lines (nums : list Z) :
  forall st l, In l (printed st) -> In l (printed (loop nums st)).
Proof.
  induction nums as [| n nums IH]; intros st l H; [exact H |].
  cbn [page_loop].
  destruct (http_get (url n)) as [e | [| o offers]].
  - apply IH. simpl. rewrite !in_app_iff. auto.
  - simpl. rewrite !in_app_iff. auto.
  - apply IH. rewrite fold_collect. simpl. rewrite !in_app_iff. auto.
Qed.

(** Every requested page whose request fails has its error printed. *)
Lemma page_loop_reports (nums : list Z) (n : Z) (e : str) :
  In n (through_empty http_get city nums) ->
  http_get (url n) = RequestException e ->
  forall st, In (PageError n e) (printed (loop nums st)).
Proof.
  intros Hin He. induction nums as [| m nums IH]; [destruct Hin |].
  intros st. cbn [page_loop]. cbn [through_empty] in Hin.
  unfold no_cards in Hin.
  destruct (http_get (url m)) as [e' | [| o offers]] eqn:E.
  - destruct Hin as [-> | Hin].
    + rewrite He in E. injection E as <-.
      apply page_loop_keeps_lines. simpl. rewrite in_app_iff. right. now left.
    + now apply IH.
  - destruct Hin as [-> | []]. congruence.
  - destruct Hin as [-> | Hin]; [congruence | now apply IH].
Qed.

End OneCity.

(** Page lists around a page that fails or that has no cards. *)
Lemma through_empty_stop (city : str) (before after : list Z) (n : Z) :
  no_cards http_get city n = true ->
  forallb (fun m => negb (no_cards http_get city m)) before = true ->
  through_empty http_get city (before ++ n :: after) = before ++ [n]
  /\ before_empty http_get city (before ++ n :: after) = before.
Proof.
  intros Hn. induction before as [| m before IH]; simpl; intros Hb.
  - now rewrite Hn.
  - apply andb_true_iff in Hb. destruct Hb as [Hm Hb].
    apply negb_true_iff in Hm. rewrite Hm.
    destruct (IH Hb) as [-> ->]. auto.
Qed.

Lemma through_empty_pass (city : str) (before after : list Z) :
  forallb (fun m => negb (no_cards http_get city m)) before = true ->
  through_empty http_get city (before ++ after)
  = before ++ through_empty http_get city after
  /\ before_empty http_get city (before ++ after)
     = before ++ before_empty http_get city after.
Proof.
  induction before as [| m before IH]; simpl; intros Hb; [auto |].
  apply andb_true_iff in Hb. destruct Hb as [Hm Hb].
  apply negb_true_iff in Hm. rewrite Hm.
  destruct (IH Hb) as [-> ->]. auto.
Qed.

Lemma gathered_skips_failure (city : str) (before after : list Z) (n : Z)
      (e : str) :
  http_get (page_url city n) = RequestException e ->
  gathered lower http_get city (before ++ n :: after)
  = gathered lower http_get city (before ++ after).
Proof.
  intros He. unfold gathered.
  induction before as [| m before IH].
  - cbn [app before_empty]. unfold no_cards. rewrite He.
    cbn [flat_map]. unfold page_rows at 1. now rewrite He.
  - cbn [app before_empty].
    destruct (no_cards http_get city m); [reflexivity |].
    cbn [flat_map]. now rewrite IH.
Qed.

End DriverFacts.

(** [range(1, pages + 1)] counts from one to [pages]. *)
Lemma page_numbers_nth (pages : Z) (i : nat) :
  (i < Z.to_nat pages)%nat ->
  nth_error (page_numbers pages) i = Some (Z.of_nat i + 1).
Proof.
  intros H. unfold page_numbers.
  rewrite nth_error_map.
  rewrite (nth_error_nth' _ 0%nat) by now rewrite length_seq.
  rewrite seq_nth by exact H. simpl. f_equal. lia.
Qed.

Lemma page_numbers_length (pages : Z) :
  List.length (page_numbers pages) = Z.to_nat pages.
Proof.
  unfold page_numbers. now rewrite length_map, length_seq.
Qed.

Lemma page_numbers_two (pages : Z) :
  2 <= pages ->
  exists more, page_numbers pages = 1 :: 2 :: more.
Proof.
  intros H. unfold page_numbers.
  destruct (Z.to_nat pages) as [| [| k]] eqn:E; try lia.
  simpl. eexists. reflexivity.
Qed.

(** ** [main] *)

Section MainFacts.

Variable lower : str -> str.
Variable http_get : str -> response.
Variable io_error : str -> option str.

#[local] Abbreviation run_main := (main lower http_get io_error).
#[local] Abbreviation loop := (page_loop lower http_get).

Lemma main_keeps_loop_state (city : str) (pages : Z) (out : str) :
  all_data (run_main city pages out) = all_data (after_loop lower http_get city pages)
  /\ requests (run_main city pages out) = requests (after_loop lower http_get city pages)
  /\ forall l, In l (printed (after_loop lower http_get city pages)) ->
               In l (printed (run_main city pages out)).
Proof.
  unfold main. fold (after_loop lower http_get city pages).
  destruct (all_data (after_loop lower http_get city pages)) as [| r rs] eqn:E.
  - simpl. rewrite E. repeat split. intros l H. rewrite in_app_iff. auto.
  - destruct (io_error out) as [e |].
    + simpl. rewrite E. repeat split. intros l H.
      rewrite !in_app_iff. auto.
    + destruct (dirname out); simpl; rewrite E; repeat split; intros l H;
        rewrite !in_app_iff; auto.
Qed.

Lemma main_gathers (city : str) (pages : Z) (out : str) :
  all_data (run_main city pages out)
  = gathered lower http_get city (page_numbers pages)
  /\ requests (run_main city pages out)
     = map (page_url city) (through_empty http_get city (page_numbers pages)).
Proof.
  destruct (main_keeps_loop_state city pages out) as (-> & -> & _).
  unfold after_loop.
  destruct (page_loop_effects lower http_get city pages (page_numbers pages)
              (print (Starting city) start)) as (-> & -> & _).
  auto.
Qed.

Lemma main_writes (city : str) (pages : Z) (out : str) :
  match all_data (run_main city pages out), io_error out with
  | _ :: _, None =>
    written (run_main city pages out)
    = Some (out, CSV_HEADERS :: all_data (run_main city pages out))
    /\ last (printed (run_main city pages out)) NothingCollected = Saved out
  | _ :: _, Some e =>
    written (run_main city pages out) = None
    /\ last (printed (run_main city pages out)) NothingCollected
       = WriteError out e
  | [], _ =>
    written (run_main city pages out) = None
    /\ last (printed (run_main city pages out)) (Starting [])
       = NothingCollected
  end.
Proof.
  destruct (main_keeps_loop_state city pages out) as (Hd & _ & _).
  rewrite Hd. unfold main. fold (after_loop lower http_get city pages).
  assert (Hw : written (after_loop lower http_get city pages) = None).
  { unfold after_loop.
    destruct (page_loop_effects lower http_get city pages
                (page_numbers pages) (print (Starting city) start))
      as (_ & _ & -> & _). reflexivity. }
  destruct (all_data (after_loop lower http_get city pages)) as [| r rs] eqn:E.
  - simpl. rewrite Hw, last_last. auto.
  - destruct (io_error out) as [e |].
    + simpl. rewrite Hw, last_last. auto.
    + destruct (dirname out); simpl; rewrite E, last_last; auto.
Qed.

(** C1: the pages are requested in the order 1, 2, ... up to [pages]; a
    page without cards ends the loop, so that no later page is requested,
    and the rows gathered before it stay in the accumulator.  With three
    cards on page 1 and none on page 2, two requests are issued and the
    file holds the header and three rows. *)
Theorem empty_page_ends_the_run :
  (forall pages i,
      (i < Z.to_nat pages)%nat ->
      nth_error (page_numbers pages) i = Some (Z.of_nat i + 1))
  /\ (forall pages, List.length (page_numbers pages) = Z.to_nat pages)
  /\ (forall city pages out,
         requests (run_main city pages out)
         = map (page_url city)
               (through_empty http_get city (page_numbers pages))
         /\ all_data (run_main city pages out)
            = gathered lower http_get city (page_numbers pages))
  /\ (forall city pages n after st,
         http_get (page_url city n) = Cards [] ->
         requests (loop city pages (n :: after) st)
         = requests st ++ [page_url city n]
         /\ all_data (loop city pages (n :: after) st) = all_data st)
  /\ (forall city before n after,
         no_cards http_get city n = true ->
         forallb (fun m => negb (no_cards http_get city m)) before = true ->
         through_empty http_get city (before ++ n :: after) = before ++ [n]
         /\ gathered lower http_get city (before ++ n :: after)
            = flat_map (page_rows lower http_get city) before)
  /\ (forall city pages out o1 o2 o3,
         2 <= pages ->
         http_get (page_url city 1) = Cards [o1; o2; o3] ->
         http_get (page_url city 2) = Cards [] ->
         io_error out = None ->
         requests (run_main city pages out)
         = [page_url city 1; page_url city 2]
         /\ exists r1 r2 r3,
             all_data (run_main city pages out) = [r1; r2; r3]
             /\ written (run_main city pages out)
                = Some (out, [CSV_HEADERS; r1; r2; r3])).
Proof.
  split; [exact page_numbers_nth |].
  split; [exact page_numbers_length |].
  split.
  { intros city pages out.
    destruct (main_gathers city pages out) as [-> ->]. auto. }
  split.
  { intros city pages n after st H. cbn [page_loop]. rewrite H. simpl. auto. }
  split.
  { intros city before n after Hn Hb. unfold gathered.
    destruct (through_empty_stop http_get city before after n Hn Hb)
      as [-> ->]. auto. }
  intros city pages out o1 o2 o3 Hp H1 H2 Hio.
  destruct (page_numbers_two pages Hp) as (more & Hnums).
  destruct (main_gathers city pages out) as [Hd Hr].
  assert (Hn1 : no_cards http_get city 1 = false)
    by (unfold no_cards; now rewrite H1).
  assert (Hn2 : no_cards http_get city 2 = true)
    by (unfold no_cards; now rewrite H2).
  rewrite Hnums in Hd, Hr. unfold gathered in Hd.
  cbn [through_empty before_empty] in Hd, Hr.
  rewrite Hn1, Hn2 in Hd, Hr. cbn [flat_map map] in Hd, Hr.
  unfold page_rows in Hd. rewrite H1, app_nil_r in Hd.
  split; [exact Hr |].
  destruct (rows_of_cons lower o1 [o2; o3]) as (r1 & _ & E1).
  destruct (rows_of_cons lower o2 [o3]) as (r2 & _ & E2).
  destruct (rows_of_cons lower o3 []) as (r3 & _ & E3).
  rewrite E1, E2, E3 in Hd. cbn [rows_of flat_map] in Hd.
  exists r1, r2, r3. split; [exact Hd |].
  pose proof (main_writes city pages out) as Hw.
  rewrite Hd, Hio in Hw. destruct Hw as [Hw _]. exact Hw.
Qed.

(** C8: a page whose request raises is reported and skipped: the loop goes
    on with the next page number, the pages after it are still requested,
    and the rows of the other pages are what they would be without the
    failing page. *)
Theorem failed_request_is_skipped :
  (forall city pages n rest st e,
      http_get (page_url city n) = RequestException e ->
      loop city pages (n :: rest) st
      = loop city pages rest
             (print (PageError n e)
                (request (page_url city n) (print (Fetching n pages) st))))
  /\ (forall city pages out n e,
         In n (through_empty http_get city (page_numbers pages)) ->
         http_get (page_url city n) = RequestException e ->
         In (PageError n e) (printed (run_main city pages out)))
  /\ (forall city before n after e,
         http_get (page_url city n) = RequestException e ->
         gathered lower http_get city (before ++ n :: after)
         = gathered lower http_get city (before ++ after))
  /\ (forall city before n after e,
         http_get (page_url city n) = RequestException e ->
         forallb (fun m => negb (no_cards http_get city m)) before = true ->
         through_empty http_get city (before ++ n :: after)
         = before ++ n :: through_empty http_get city after).
Proof.
  split.
  { intros city pages n rest st e H. cbn [page_loop]. now rewrite H. }
  split.
  { intros city pages out n e Hin He.
    apply (main_keeps_loop_state city pages out).
    unfold after_loop. now apply page_loop_reports. }
  split.
  { intros city before n after e He.
    now apply (gathered_skips_failure lower http_get city before after n e). }
  intros city before n after e He Hb.
  destruct (through_empty_pass http_get city before (n :: after) Hb)
    as [-> _].
  cbn [through_empty]. unfold no_cards. now rewrite He.
Qed.

(** C9: after the loop, a non-empty accumulator is written as the header
    row of the ten column names followed by the accumulated rows, which
    stand in the order of the pages and, within a page, of its cards; each
    row has ten cells, and a numeric cell without a value is the empty
    string.  With an empty accumulator nothing is written and the run
    reports that nothing was collected.  A failing write is reported and
    leaves no file. *)
Theorem output_after_the_loop :
  forall city pages out,
    (all_data (run_main city pages out) <> [] ->
     io_error out = None ->
     written (run_main city pages out)
     = Some (out, CSV_HEADERS :: all_data (run_main city pages out)))
    /\ List.length CSV_HEADERS = 10%nat
    /\ all_data (run_main city pages out)
       = flat_map (page_rows lower http_get city)
                  (before_empty http_get city (page_numbers pages))
    /\ (forall r, In r (all_data (run_main city pages out)) ->
                  List.length r = 10%nat
                  /\ forall i c, (1 <= i <= 3)%nat ->
                                 nth_error r i = Some c ->
                                 empty_or_positive c)
    /\ (all_data (run_main city pages out) = [] ->
        written (run_main city pages out) = None
        /\ last (printed (run_main city pages out)) (Starting [])
           = NothingCollected)
    /\ (forall e, all_data (run_main city pages out) <> [] ->
                  io_error out = Some e ->
                  written (run_main city pages out) = None
                  /\ last (printed (run_main city pages out)) NothingCollected
                     = WriteError out e).
Proof.
  intros city pages out.
  pose proof (main_writes city pages out) as Hw.
  destruct (main_gathers city pages out) as [Hd _].
  split.
  { intros Hne Hio. rewrite Hio in Hw.
    destruct (all_data (run_main city pages out)); [contradiction |].
    apply Hw. }
  split; [reflexivity |].
  split; [exact Hd |].
  split.
  { intros r Hin. rewrite Hd in Hin. unfold gathered in Hin.
    apply in_flat_map in Hin. destruct Hin as (n & _ & Hin).
    unfold page_rows in Hin.
    destruct (http_get (page_url city n)) as [e | offers]; [destruct Hin |].
    apply rows_of_in in Hin. destruct Hin as (o & _ & Ho).
    destruct (parse_listing_row lower o)
      as (id & p & a & rm & loc & street & priv & desc & link
          & E & -> & -> & ->).
    rewrite E in Ho. injection Ho as <-.
    split; [reflexivity |].
    intros i c Hi Hc.
    destruct i as [| [| [| [| i]]]]; try lia; simpl in Hc;
      injection Hc as <-.
    - apply int_cell_positive, parse_price_positive.
    - apply float_cell_positive, parse_area_positive.
    - apply int_cell_positive, parse_rooms_positive. }
  split.
  { intros E. rewrite E in Hw. exact Hw. }
  intros e Hne Hio. rewrite Hio in Hw.
  destruct (all_data (run_main city pages out)); [contradiction |].
  exact Hw.
Qed.

End MainFacts.

Lemma empty_page_ends_the_run_witness :
  2 <= 8
  /\ two_page_site (page_url (u "lodz") 1)
     = Cards [full_card (u "1") (u "635 000 zł") (u "50,25 m²") (u "3 pok.");
              full_card (u "2") (u "410 000 zł") (u "38 m²") (u "2");
              full_card (u "3") (u "cena do negocjacji") (u "0 m²")
                        (u "kawalerka")]
  /\ two_page_site (page_url (u "lodz") 2) = Cards []
  /\ disk_ok (u "data/ogloszenia_lodz.csv") = None
  /\ requests (main ascii_lower two_page_site disk_ok (u "lodz") 8
                    (u "data/ogloszenia_lodz.csv"))
     = [page_url (u "lodz") 1; page_url (u "lodz") 2]
  /\ exists r1 r2 r3,
      all_data (main ascii_lower two_page_site disk_ok (u "lodz") 8
                     (u "data/ogloszenia_lodz.csv")) = [r1; r2; r3]
      /\ written (main ascii_lower two_page_site disk_ok (u "lodz") 8
                       (u "data/ogloszenia_lodz.csv"))
         = Some (u "data/ogloszenia_lodz.csv", [CSV_HEADERS; r1; r2; r3]).
Proof.
  split; [lia |].
  split; [vm_compute; reflexivity |].
  split; [vm_compute; reflexivity |].
  split; [reflexivity |].
  apply (proj2 (proj2 (proj2 (proj2 (proj2
           (empty_page_ends_the_run ascii_lower two_page_site disk_ok)))))
           (u "lodz") 8 (u "data/ogloszenia_lodz.csv")
           (full_card (u "1") (u "635 000 zł") (u "50,25 m²") (u "3 pok."))
           (full_card (u "2") (u "410 000 zł") (u "38 m²") (u "2"))
           (full_card (u "3") (u "cena do negocjacji") (u "0 m²")
                      (u "kawalerka"))).
  - lia.
  - vm_compute; reflexivity.
  - vm_compute; reflexivity.
  - reflexivity.
Defined.

Lemma failed_request_is_skipped_witness :
  flaky_site (page_url (u "lodz") 2) = RequestException (u "503 Server Error")
  /\ page_loop ascii_lower flaky_site (u "lodz") 3 [2; 3] start
     = page_loop ascii_lower flaky_site (u "lodz") 3 [3]
         (print (PageError 2 (u "503 Server Error"))
            (request (page_url (u "lodz") 2) (print (Fetching 2 3) start))).
Proof.
  split; [vm_compute; reflexivity |].
  apply (proj1 (failed_request_is_skipped ascii_lower flaky_site disk_ok)
           (u "lodz") 3 2 [3] start (u "503 Server Error")).
  vm_compute; reflexivity.
Defined.

Lemma output_after_the_loop_witness :
  all_data (main ascii_lower two_page_site disk_ok (u "lodz") 8
                 (u "out/lodz.csv")) <> []
  /\ disk_ok (u "out/lodz.csv") = None
  /\ written (main ascii_lower two_page_site disk_ok (u "lodz") 8
                   (u "out/lodz.csv"))
     = Some (u "out/lodz.csv",
             CSV_HEADERS
               :: all_data (main ascii_lower two_page_site disk_ok (u "lodz")
                                 8 (u "out/lodz.csv"))).
Proof.
  assert (H : all_data (main ascii_lower two_page_site disk_ok (u "lodz") 8
                             (u "out/lodz.csv")) <> [])
    by (vm_compute; discriminate).
  split; [exact H |].
  split; [reflexivity |].
  apply (proj1 (output_after_the_loop ascii_lower two_page_site disk_ok
                  (u "lodz") 8 (u "out/lodz.csv")));
    [exact H | reflexivity].
Defined.


(** * Further properties of the module *)

(** ** [_clean] *)

Lemma lstrip_stops (s : str) : stops isspace (lstrip s).
Proof.
  induction s as [| c s IH]; simpl; [exact I |].
  destruct (isspace c) eqn:E; [exact IH | exact E].
Qed.

Lemma lstrip_fixed (s : str) : stops isspace s -> lstrip s = s.
Proof.
  destruct s as [| c s]; simpl; [reflexivity |]. now intros ->.
Qed.

Lemma lstrip_snoc (l : str) (c : N) :
  isspace c = false -> exists l', lstrip (l ++ [c]) = l' ++ [c].
Proof.
  intros Hc. induction l as [| a l IH]; simpl.
  - rewrite Hc. now exists [].
  - destruct (isspace a); [exact IH | now exists (a :: l)].
Qed.

Lemma rstrip_keeps_head (s : str) :
  stops isspace s -> stops isspace (rstrip s).
Proof.
  destruct s as [| c s]; [intros _; exact I |].
  simpl. intros Hc. unfold rstrip. simpl.
  destruct (lstrip_snoc (rev s) c Hc) as (l' & ->).
  rewrite rev_app_distr. simpl. exact Hc.
Qed.

Lemma strip_stops_left (s : str) : stops isspace (strip s).
Proof. apply rstrip_keeps_head, lstrip_stops. Qed.

Lemma strip_stops_right (s : str) : stops isspace (rev (strip s)).
Proof.
  unfold strip, rstrip. rewrite rev_involutive. apply lstrip_stops.
Qed.

Lemma strip_fixed (s : str) :
  stops isspace s -> stops isspace (rev s) -> strip s = s.
Proof.
  intros H1 H2. unfold strip, rstrip.
  rewrite (lstrip_fixed s H1), (lstrip_fixed (rev s) H2).
  apply rev_involutive.
Qed.

Lemma lstrip_blank (s : str) : forallb isspace s = true -> lstrip s = [].
Proof.
  induction s as [| c s IH]; simpl; [reflexivity |].
  intros H. apply andb_true_iff in H. destruct H as [-> H]. now apply IH.
Qed.

Lemma clean_eq (s : str) : _clean s = strip (replace_char 160 32 s).
Proof. destruct s; reflexivity. Qed.

Lemma replace_char_fixed (a b : N) (s : str) :
  ~ In a s -> replace_char a b s = s.
Proof.
  induction s as [| c s IH]; simpl; [reflexivity |].
  intros H. destruct (c =? a)%N eqn:E.
  - apply N.eqb_eq in E. subst. exfalso. apply H. now left.
  - f_equal. apply IH. intros Hin. apply H. now right.
Qed.

Lemma clean_no_nbsp (s : str) : ~ In 160%N (_clean s).
Proof.
  rewrite clean_eq. intros H. apply strip_incl in H.
  unfold replace_char in H. apply in_map_iff in H.
  destruct H as (c & Hc & _).
  destruct (c =? 160)%N eqn:E; [discriminate |].
  apply N.eqb_neq in E. congruence.
Qed.

(** [_clean] gives a text that neither starts nor ends with a blank and
    holds no no-break space; and a text made of blanks only, no-break
    spaces included, gives the empty string. *)
Theorem clean_is_normal :
  forall s,
    stops isspace (_clean s)
    /\ stops isspace (rev (_clean s))
    /\ ~ In 160%N (_clean s)
    /\ (forallb isspace s = true -> _clean s = []).
Proof.
  intros s. rewrite clean_eq.
  split; [apply strip_stops_left |].
  split; [apply strip_stops_right |].
  split; [rewrite <- clean_eq; apply clean_no_nbsp |].
  intros H. unfold strip.
  rewrite lstrip_blank; [reflexivity |].
  unfold replace_char. rewrite forallb_forall in *.
  intros c Hc. apply in_map_iff in Hc. destruct Hc as (x & <- & Hx).
  destruct (x =? 160)%N; [reflexivity | now apply H].
Qed.

Lemma clean_is_normal_witness :
  forallb isspace (u "  ") = true /\ _clean (u "  ") = [].
Proof.
  split; [reflexivity |].
  apply (proj2 (proj2 (proj2 (clean_is_normal (u "  "))))).
  reflexivity.
Defined.

(** Cleaning a cleaned text changes nothing. *)
Theorem clean_idempotent : forall s, _clean (_clean s) = _clean s.
Proof.
  intros s. rewrite (clean_eq (_clean s)).
  rewrite (replace_char_fixed _ _ _ (clean_no_nbsp s)).
  rewrite clean_eq.
  apply strip_fixed; [apply strip_stops_left | apply strip_stops_right].
Qed.

(** ** More on [_parse_price] and [_parse_area] *)

(** Only the digits of a text matter to [_parse_price]: a character that is
    no digit can be inserted or removed anywhere without changing the
    result, so that the digits after a decimal comma are read as further
    digits of the amount. *)
Theorem parse_price_reads_digits_only :
  (forall s t, sub_non_digits s = sub_non_digits t ->
               _parse_price s = _parse_price t)
  /\ (forall a b c, isdecimal c = false ->
                    _parse_price (a ++ c :: b) = _parse_price (a ++ b))
  /\ (forall s, _parse_price (sub_non_digits s) = _parse_price s)
  /\ _parse_price (u "1 200,50 zł") = Some 120050.
Proof.
  split; [| split; [| split]].
  - intros s t H. now rewrite !parse_price_eq, H.
  - intros a b c Hc. rewrite !parse_price_eq. unfold sub_non_digits.
    rewrite !filter_app. simpl. now rewrite Hc.
  - intros s. rewrite !parse_price_eq. unfold sub_non_digits.
    assert (H : filter isdecimal (filter isdecimal s) = filter isdecimal s).
    { induction s as [| c s IH]; simpl; [reflexivity |].
      destruct (isdecimal c) eqn:E; simpl; [rewrite E; f_equal |]; exact IH. }
    now rewrite H.
  - vm_compute. reflexivity.
Qed.

Lemma parse_price_reads_digits_only_witness :
  isdecimal 44%N = false
  /\ _parse_price (u "1 200" ++ 44%N :: u "50 zł")
     = _parse_price (u "1 200" ++ u "50 zł").
Proof.
  split; [reflexivity |].
  apply (proj1 (proj2 parse_price_reads_digits_only)). reflexivity.
Defined.

Lemma skip_to_app (cls : N -> bool) (pre t : str) :
  forallb (fun c => negb (cls c)) pre = true ->
  skip_to cls (pre ++ t) = skip_to cls t.
Proof.
  induction pre as [| c pre IH]; simpl; [reflexivity |].
  intros H. apply andb_true_iff in H. destruct H as [Hc H].
  apply negb_true_iff in Hc. rewrite Hc. now apply IH.
Qed.

(** A full stop or a comma that comes before the number and is not part of
    it hides the number from [_parse_area]: the first run of digits and
    full stops is then the lone full stop, which is no number. *)
Theorem parse_area_hidden_by_early_stop :
  forall pre c rest,
    forallb (fun x => negb (digit_or_stop x || (x =? 44)%N)) pre = true ->
    c = 46%N \/ c = 44%N ->
    stops (fun x => digit_or_stop x || (x =? 44)%N) rest ->
    _parse_area (pre ++ c :: rest) = None.
Proof.
  intros pre c rest Hpre Hc Hrest.
  rewrite parse_area_eq. unfold replace_char. rewrite map_app. simpl.
  assert (E : (if (c =? 44)%N then 46%N else c) = 46%N)
    by (destruct Hc; subst; reflexivity).
  rewrite E. unfold first_run. rewrite skip_to_app.
  - simpl.
    assert (Ht : take_run digit_or_stop
                   (map (fun x => if (x =? 44)%N then 46%N else x) rest)
                 = []).
    { destruct rest as [| x rest]; [reflexivity |]. simpl in *.
      apply orb_false_iff in Hrest. destruct Hrest as [H1 H2].
      now rewrite H2, H1. }
    rewrite Ht. reflexivity.
  - rewrite forallb_forall in *. intros x Hx.
    apply in_map_iff in Hx. destruct Hx as (y & <- & Hy).
    specialize (Hpre y Hy). apply negb_true_iff in Hpre.
    apply orb_false_iff in Hpre. destruct Hpre as [H1 H2].
    now rewrite H2, H1.
Qed.

Lemma parse_area_hidden_by_early_stop_witness :
  forallb (fun x => negb (digit_or_stop x || (x =? 44)%N)) (u "pow") = true
  /\ (46%N = 46%N \/ 46%N = 44%N)
  /\ stops (fun x => digit_or_stop x || (x =? 44)%N) (u " 50 m²")
  /\ _parse_area (u "pow" ++ 46%N :: u " 50 m²") = None.
Proof.
  split; [reflexivity |].
  split; [now left |].
  split; [reflexivity |].
  apply parse_area_hidden_by_early_stop;
    [reflexivity | now left | reflexivity].
Defined.

Lemma split_point_stops (t : str) :
  count_stops t
  = match snd (split_point t) with
    | Some fp => S (count_stops fp)
    | None => 0%nat
    end.
Proof.
  unfold count_stops. induction t as [| c t IH]; simpl; [reflexivity |].
  destruct (c =? 46)%N; simpl; [reflexivity |].
  destruct (split_point t) as [a b]. exact IH.
Qed.

Lemma stop_is_no_digit (fp : str) :
  (1 <= count_stops fp)%nat -> forallb isdecimal fp = false.
Proof.
  unfold count_stops. induction fp as [| c fp IH]; simpl; [lia |].
  destruct (c =? 46)%N eqn:E.
  - apply N.eqb_eq in E. subst. reflexivity.
  - intros H. rewrite (IH H). apply andb_false_r.
Qed.

(** A first run with two or more full stops, as in a number written with
    full stops between the thousands and a decimal comma, gives no area. *)
Theorem parse_area_rejects_two_stops :
  forall s t,
    first_run digit_or_stop (replace_char 44 46 s) = Some t ->
    (2 <= count_stops t)%nat ->
    _parse_area s = None.
Proof.
  intros s t Hrun Hcount. rewrite parse_area_eq, Hrun.
  unfold float_of_str. rewrite split_point_stops in Hcount.
  destruct (split_point t) as [ip [fp |]]; simpl in Hcount; [| lia].
  rewrite (stop_is_no_digit fp) by lia.
  now rewrite andb_false_r.
Qed.

Lemma parse_area_rejects_two_stops_witness :
  first_run digit_or_stop (replace_char 44 46 (u "1.250,5 m²"))
  = Some (u "1.250.5")
  /\ (2 <= count_stops (u "1.250.5"))%nat
  /\ _parse_area (u "1.250,5 m²") = None.
Proof.
  assert (H : first_run digit_or_stop (replace_char 44 46 (u "1.250,5 m²"))
              = Some (u "1.250.5")) by (vm_compute; reflexivity).
  assert (H2 : (2 <= count_stops (u "1.250.5"))%nat) by (vm_compute; lia).
  split; [exact H |].
  split; [exact H2 |].
  exact (parse_area_rejects_two_stops _ _ H H2).
Defined.


(** ** More on [parse_listing] *)

Section ListingExtras.

Variable lower : str -> str.


Lemma clean_text_normal (el : option str) :
  stops isspace (clean_text el)
  /\ stops isspace (rev (clean_text el))
  /\ ~ In 160%N (clean_text el).
Proof.
  destruct el as [t |]; simpl.
  - split; [| split]; [| | apply clean_no_nbsp]; rewrite clean_eq;
      [apply strip_stops_left | apply strip_stops_right].
  - repeat split. intros [].
Qed.

(** The location, street and description cells hold cleaned text: no blank
    at either end and no no-break space. *)
Theorem text_cells_are_clean :
  forall o i,
    i = 4%nat \/ i = 5%nat \/ i = 8%nat ->
    exists t,
      field i (parse_listing lower o) = Some (CStr t)
      /\ stops isspace t /\ stops isspace (rev t) /\ ~ In 160%N t.
Proof.
  intros o i Hi. unfold parse_listing. cbn [field].
  destruct Hi as [-> | [-> | ->]]; cbn [nth_error];
    eexists; (split; [reflexivity | apply clean_text_normal]).
Qed.

(** The link cell is empty or starts with "http": the base URL is put in
    front of every reference that does not. *)
Theorem link_cell_is_empty_or_http :
  forall o,
    exists l,
      field 9 (parse_listing lower o) = Some (CStr l)
      /\ (l = [] \/ startswith (u "http") l = true)
      /\ (l = [] <-> link_href o = None \/ link_href o = Some []).
Proof.
  intros o. unfold parse_listing. cbn [field nth_error].
  eexists. split; [reflexivity |].
  destruct (link_href o) as [[| c href] |].
  - split; [now left |]. split; auto.
  - destruct (startswith (u "http") (c :: href)) eqn:E; cbn [negb].
    + split; [now right |].
      split; [discriminate | intros [H | H]; discriminate].
    + split.
      * right. apply startswith_iff.
        exists (u "s://adresowo.pl" ++ c :: href).
        unfold BASE_URL. rewrite app_assoc. f_equal.
      * split; [| intros [H | H]; discriminate].
        unfold BASE_URL. intros H.
        apply (f_equal (@List.length N)) in H.
        rewrite length_app in H. vm_compute in H. lia.
  - split; [now left |]. split; auto.
Qed.

End ListingExtras.

Lemma text_cells_are_clean_witness :
  (4%nat = 4%nat \/ 4%nat = 5%nat \/ 4%nat = 8%nat)
  /\ exists t,
      field 4 (parse_listing ascii_lower
                 (full_card (u "1") (u "1 zł") (u "2 m²") (u "3")))
      = Some (CStr t)
      /\ stops isspace t /\ stops isspace (rev t) /\ ~ In 160%N t.
Proof.
  split; [now left |].
  apply (text_cells_are_clean ascii_lower). now left.
Defined.

(** ** More on the page loop and [main] *)

Lemma uint_to_str_inj (d d' : Decimal.uint) :
  uint_to_str d = uint_to_str d' -> d = d'.
Proof.
  revert d'. induction d; intros d' H; destruct d'; simpl in H;
    try discriminate; try reflexivity;
    injection H as H; f_equal; now apply IHd.
Qed.

(** Distinct page numbers from one on have distinct URLs. *)
Lemma page_url_inj (city : str) (n m : Z) :
  1 <= n -> 1 <= m -> page_url city n = page_url city m -> n = m.
Proof.
  intros Hn Hm H. unfold page_url in H.
  repeat apply app_inv_head in H.
  destruct n as [| p | p]; try lia. destruct m as [| q | q]; try lia.
  simpl in H. apply uint_to_str_inj in H.
  apply DecimalPos.Unsigned.to_uint_inj in H. now subst.
Qed.

Lemma page_numbers_in (pages n : Z) :
  In n (page_numbers pages) -> 1 <= n <= pages.
Proof.
  unfold page_numbers. intros H. apply in_map_iff in H.
  destruct H as (k & <- & Hk). apply in_seq in Hk. lia.
Qed.

Lemma page_numbers_NoDup (pages : Z) : NoDup (page_numbers pages).
Proof.
  unfold page_numbers.
  assert (H : forall l, NoDup l -> NoDup (map Z.of_nat l)).
  { induction l as [| a l IH]; simpl; intros Hl; [constructor |].
    inversion Hl as [| ? ? Ha Hl']; subst. constructor; [| now apply IH].
    intros Hin. apply in_map_iff in Hin. destruct Hin as (b & Hb & Hin).
    apply Nat2Z.inj in Hb. now subst. }
  apply H, seq_NoDup.
Qed.

Lemma NoDup_map_on {X Y} (f : X -> Y) (l : list X) :
  (forall x y, In x l -> In y l -> f x = f y -> x = y) ->
  NoDup l -> NoDup (map f l).
Proof.
  induction l as [| a l IH]; simpl; intros Hinj Hl; [constructor |].
  inversion Hl as [| ? ? Ha Hl']; subst. constructor.
  - intros Hin. apply in_map_iff in Hin. destruct Hin as (b & Hb & Hin).
    assert (b = a) by (apply Hinj; auto). now subst.
  - apply IH; auto.
Qed.

Lemma flat_map_map {X Y W} (f : Y -> W) (g : X -> list Y) (l : list X) :
  map f (flat_map g l) = flat_map (fun x => map f (g x)) l.
Proof.
  induction l as [| a l IH]; simpl; [reflexivity |].
  now rewrite map_app, IH.
Qed.

Section DriverExtras.

Variable lower : str -> str.
Variable http_get : str -> response.
Variable io_error : str -> option str.

#[local] Abbreviation run_main := (main lower http_get io_error).

Lemma through_empty_prefix (city : str) (nums : list Z) :
  exists rest, nums = through_empty http_get city nums ++ rest.
Proof.
  induction nums as [| n nums [rest IH]]; simpl; [now exists [] |].
  destruct (no_cards http_get city n).
  - now exists nums.
  - exists rest. simpl. now f_equal.
Qed.

Lemma rows_of_are_rows (offers : list offer) :
  map Some (rows_of lower offers) = map (parse_listing lower) offers.
Proof.
  induction offers as [| o offers IH]; [reflexivity |].
  destruct (rows_of_cons lower o offers) as (r & Hr & ->).
  simpl map. now rewrite IH, Hr.
Qed.

(** With no page to visit ([pages] at most zero) [main] requests nothing,
    writes nothing and only reports that nothing was collected. *)
Theorem main_without_pages :
  forall city pages out,
    pages <= 0 ->
    run_main city pages out
    = print NothingCollected (print (Starting city) start).
Proof.
  intros city pages out H. unfold main, page_numbers.
  replace (Z.to_nat pages) with 0%nat by lia. reflexivity.
Qed.

(** A run never issues more than [pages] requests, and each is for the
    listing page of the city with a number from 1 to [pages]. *)
Theorem requests_are_bounded :
  forall city pages out,
    (List.length (requests (run_main city pages out)) <= Z.to_nat pages)%nat
    /\ forall url, In url (requests (run_main city pages out)) ->
                   exists n, 1 <= n <= pages /\ url = page_url city n.
Proof.
  intros city pages out.
  destruct (main_gathers lower http_get io_error city pages out)
    as [_ ->].
  destruct (through_empty_prefix city (page_numbers pages)) as (rest & E).
  split.
  - rewrite length_map, <- (page_numbers_length pages).
    rewrite E at 2. rewrite length_app. lia.
  - intros url H. apply in_map_iff in H. destruct H as (n & <- & Hn).
    exists n. split; [| reflexivity].
    apply page_numbers_in. rewrite E. apply in_or_app. now left.
Qed.

(** A run never requests the same URL twice. *)
Theorem requests_are_distinct :
  forall city pages out,
    NoDup (requests (main lower http_get io_error city pages out)).
Proof.
  intros city pages out.
  destruct (main_gathers lower http_get io_error city pages out)
    as [_ ->].
  destruct (through_empty_prefix city (page_numbers pages)) as (rest & E).
  pose proof (page_numbers_NoDup pages) as Hnd. rewrite E in Hnd.
  apply NoDup_app_remove_r in Hnd.
  apply NoDup_map_on; [| exact Hnd].
  intros x y Hx Hy. apply page_url_inj.
  - apply (page_numbers_in pages). rewrite E. apply in_or_app. now left.
  - apply (page_numbers_in pages). rewrite E. apply in_or_app. now left.
Qed.

(** No card is dropped or reordered: the accumulated rows are the rows
    [parse_listing] gives for the cards of the pages before the first page
    without cards, page after page and card after card. *)
Theorem rows_are_the_cards :
  forall city pages out,
    map Some (all_data (run_main city pages out))
    = map (parse_listing lower)
          (flat_map (cards_of http_get city)
                    (before_empty http_get city (page_numbers pages)))
    /\ List.length (all_data (run_main city pages out))
       = List.length (flat_map (cards_of http_get city)
                        (before_empty http_get city (page_numbers pages))).
Proof.
  intros city pages out.
  assert (H : map Some (all_data (run_main city pages out))
              = map (parse_listing lower)
                    (flat_map (cards_of http_get city)
                       (before_empty http_get city (page_numbers pages)))).
  { destruct (main_gathers lower http_get io_error city pages out)
      as [-> _].
    unfold gathered. rewrite !flat_map_map.
    apply flat_map_ext. intros n. unfold page_rows, cards_of.
    destruct (http_get (page_url city n)); [reflexivity |].
    apply rows_of_are_rows. }
  split; [exact H |].
  apply (f_equal (@List.length (option row))) in H.
  now rewrite !length_map in H.
Qed.

End DriverExtras.

Lemma main_without_pages_witness :
  0 <= 0
  /\ main ascii_lower two_page_site disk_ok (u "lodz") 0 (u "out.csv")
     = print NothingCollected (print (Starting (u "lodz")) start).
Proof.
  split; [lia |].
  apply main_without_pages. lia.
Defined.

(** ** Pauses, failures and the output directory *)

Lemma drop_basename_no_slash (l : str) :
  ~ In 47%N l -> drop_basename l = [].
Proof.
  induction l as [| c l IH]; simpl; [reflexivity |].
  intros H. destruct (c =? 47)%N eqn:E.
  - apply N.eqb_eq in E. subst. exfalso. apply H. now left.
  - apply IH. intros Hin. apply H. now right.
Qed.

Lemma drop_basename_app (l r : str) :
  ~ In 47%N l -> drop_basename (l ++ 47%N :: r) = 47%N :: r.
Proof.
  induction l as [| c l IH]; simpl; [reflexivity |].
  intros H. destruct (c =? 47)%N eqn:E.
  - apply N.eqb_eq in E. subst. exfalso. apply H. now left.
  - apply IH. intros Hin. apply H. now right.
Qed.

Lemma dirname_no_slash (f : str) : ~ In 47%N f -> dirname f = [].
Proof.
  intros H. unfold dirname.
  rewrite drop_basename_no_slash; [reflexivity |].
  intros Hin. apply H. now apply in_rev.
Qed.

Lemma dirname_split (d f : str) (c : N) :
  ~ In 47%N f -> c <> 47%N -> dirname (d ++ c :: 47%N :: f) = d ++ [c].
Proof.
  intros H Hc. unfold dirname.
  replace (rev (d ++ c :: 47%N :: f)) with (rev f ++ 47%N :: c :: rev d).
  - rewrite drop_basename_app by (intros Hin; apply H; now apply in_rev).
    simpl. apply N.eqb_neq in Hc. rewrite Hc.
    simpl. now rewrite rev_involutive.
  - rewrite rev_app_distr. simpl. now rewrite <- !app_assoc.
Qed.

Lemma dirname_root (f : str) : ~ In 47%N f -> dirname (47%N :: f) = [47%N].
Proof.
  intros H. unfold dirname. simpl.
  rewrite drop_basename_app by (intros Hin; apply H; now apply in_rev).
  reflexivity.
Qed.

(** [os.path.dirname]: a name without a slash has no directory part; the
    directory part of a directory, a slash and a name without a slash is
    that directory; and a name directly under the root has the root. *)
Theorem dirname_of_paths :
  (forall f, ~ In 47%N f -> dirname f = [])
  /\ (forall d c f, ~ In 47%N f -> c <> 47%N ->
                    dirname (d ++ c :: 47%N :: f) = d ++ [c])
  /\ (forall f, ~ In 47%N f -> dirname (47%N :: f) = [47%N]).
Proof.
  split; [exact dirname_no_slash |].
  split; [| exact dirname_root].
  intros d c f H Hc. now apply dirname_split.
Qed.

Lemma dirname_of_paths_witness :
  ~ In 47%N (u "lodz.csv")
  /\ 97%N <> 47%N
  /\ dirname (u "dat" ++ 97%N :: 47%N :: u "lodz.csv") = u "dat" ++ [97%N].
Proof.
  assert (H : ~ In 47%N (u "lodz.csv"))
    by (vm_compute; intuition discriminate).
  split; [exact H |].
  split; [discriminate |].
  apply (proj1 (proj2 dirname_of_paths)); [exact H | discriminate].
Defined.

Section PauseFacts.

Variable lower : str -> str.
Variable http_get : str -> response.
Variable io_error : str -> option str.

#[local] Abbreviation run_main := (main lower http_get io_error).

Lemma page_loop_naps (city : str) (pages : Z) (nums : list Z) :
  forall st,
    naps (page_loop lower http_get city pages nums st)
    = (naps st
       + List.length (filter (has_cards http_get city)
                             (before_empty http_get city nums)))%nat.
Proof.
  induction nums as [| n nums IH]; intros st.
  - simpl. lia.
  - cbn [page_loop before_empty].
    assert (Hh : has_cards http_get city n
                 = match http_get (page_url city n) with
                   | Cards (_ :: _) => true
                   | _ => false
                   end) by reflexivity.
    unfold no_cards.
    destruct (http_get (page_url city n)) as [e | [| o offers]] eqn:E.
    + rewrite IH. cbn [filter]. rewrite Hh. reflexivity.
    + simpl. lia.
    + rewrite IH, fold_collect. cbn [filter]. rewrite Hh. simpl. lia.
Qed.

Lemma main_keeps_effects (city : str) (pages : Z) (out : str) :
  naps (run_main city pages out)
  = naps (after_loop lower http_get city pages)
  /\ made_dirs (run_main city pages out)
     = match all_data (run_main city pages out), io_error out,
             dirname out with
       | _ :: _, None, (_ :: _) as d => [d]
       | _, _, _ => []
       end.
Proof.
  destruct (main_keeps_loop_state lower http_get io_error city pages out)
    as (Hd & _ & _).
  rewrite Hd. unfold main. fold (after_loop lower http_get city pages).
  assert (Hm : made_dirs (after_loop lower http_get city pages) = []).
  { unfold after_loop.
    destruct (page_loop_effects lower http_get city pages
                (page_numbers pages) (print (Starting city) start))
      as (_ & _ & _ & ->). reflexivity. }
  destruct (all_data (after_loop lower http_get city pages)) as [| r rs].
  - simpl. auto.
  - destruct (io_error out) as [e |]; [simpl; auto |].
    destruct (dirname out); simpl; rewrite Hm; auto.
Qed.

Lemma before_le_through (city : str) (nums : list Z) :
  (List.length (before_empty http_get city nums)
   <= List.length (through_empty http_get city nums))%nat.
Proof.
  induction nums as [| n nums IH]; simpl; [lia |].
  destruct (no_cards http_get city n); simpl; lia.
Qed.

(** [main] pauses once after each page that gave cards, and never after a
    page whose request failed or that had no card; so there are never more
    pauses than requests. *)
Theorem pauses_follow_pages_with_cards :
  forall city pages out,
    naps (run_main city pages out)
    = List.length (filter (has_cards http_get city)
                          (before_empty http_get city (page_numbers pages)))
    /\ (naps (run_main city pages out)
        <= List.length (requests (run_main city pages out)))%nat.
Proof.
  intros city pages out.
  destruct (main_keeps_effects city pages out) as [Hn _].
  assert (E : naps (run_main city pages out)
              = List.length
                  (filter (has_cards http_get city)
                     (before_empty http_get city (page_numbers pages)))).
  { rewrite Hn. unfold after_loop. rewrite page_loop_naps. reflexivity. }
  split; [exact E |].
  rewrite E.
  destruct (main_gathers lower http_get io_error city pages out)
    as [_ ->].
  rewrite length_map.
  pose proof (filter_length_le (has_cards http_get city)
                (before_empty http_get city (page_numbers pages))).
  pose proof (before_le_through city (page_numbers pages)). lia.
Qed.


Lemma all_failed (city : str) (nums : list Z) :
  (forall n, In n nums ->
             exists e, http_get (page_url city n) = RequestException e) ->
  through_empty http_get city nums = nums
  /\ gathered lower http_get city nums = [].
Proof.
  unfold gathered. induction nums as [| n nums IH]; intros H; [auto |].
  destruct (H n (or_introl eq_refl)) as (e & He).
  destruct IH as [IH1 IH2]; [intros m Hm; apply H; now right |].
  assert (Hn : no_cards http_get city n = false)
    by (unfold no_cards; now rewrite He).
  assert (Hp : page_rows lower http_get city n = [])
    by (unfold page_rows; now rewrite He).
  cbn [through_empty before_empty]. rewrite Hn. cbn [flat_map].
  rewrite Hp, IH1, IH2. auto.
Qed.

(** When every request fails, every page from 1 to [pages] is still
    requested, nothing is written and the run reports that nothing was
    collected. *)
Theorem all_requests_failing :
  forall city pages out,
    (forall n, 1 <= n <= pages ->
               exists e, http_get (page_url city n) = RequestException e) ->
    requests (run_main city pages out)
    = map (page_url city) (page_numbers pages)
    /\ all_data (run_main city pages out) = []
    /\ written (run_main city pages out) = None
    /\ last (printed (run_main city pages out)) (Starting [])
       = NothingCollected.
Proof.
  intros city pages out H.
  destruct (all_failed city (page_numbers pages)) as [H1 H2].
  { intros n Hn. apply H. now apply page_numbers_in. }
  destruct (main_gathers lower http_get io_error city pages out)
    as [Hd Hr].
  rewrite H1 in Hr. rewrite H2 in Hd.
  split; [exact Hr |]. split; [exact Hd |].
  pose proof (main_writes lower http_get io_error city pages out) as Hw.
  rewrite Hd in Hw. exact Hw.
Qed.

End PauseFacts.

Lemma all_requests_failing_witness :
  (forall n, 1 <= n <= 3 ->
             exists e, dead_site (page_url (u "lodz") n)
                       = RequestException e)
  /\ requests (main ascii_lower dead_site disk_ok (u "lodz") 3 (u "out.csv"))
     = map (page_url (u "lodz")) (page_numbers 3).
Proof.
  assert (H : forall n, 1 <= n <= 3 ->
                        exists e, dead_site (page_url (u "lodz") n)
                                  = RequestException e).
  { intros n _. eexists. reflexivity. }
  split; [exact H |].
  apply (all_requests_failing ascii_lower dead_site disk_ok
           (u "lodz") 3 (u "out.csv") H).
Defined.


(** ** The script *)

Lemma default_output_dirname (city : str) :
  ~ In 47%N city -> dirname (default_output city) = u "data".
Proof.
  intros H. unfold default_output.
  replace (u "data/ogloszenia_" ++ city ++ u ".csv")
    with (u "dat" ++ 97%N :: 47%N :: (u "ogloszenia_" ++ city ++ u ".csv"))
    by reflexivity.
  rewrite dirname_split; [reflexivity | | discriminate].
  rewrite !in_app_iff. intros [Hin | [Hin | Hin]].
  - vm_compute in Hin. intuition discriminate.
  - now apply H.
  - vm_compute in Hin. intuition discriminate.
Qed.

(** Run without [--output] (or with an empty one) for a city whose name has
    no slash, the script writes to "data/ogloszenia_<city>.csv": when rows
    were collected and the write succeeds, the one directory it creates is
    "data" and the file holds the header and the rows. *)
Theorem script_default_output :
  forall lower http_get io_error a,
    arg_output a = None \/ arg_output a = Some [] ->
    ~ In 47%N (arg_city a) ->
    output_of a = default_output (arg_city a)
    /\ (all_data (script lower http_get io_error a) <> [] ->
        io_error (default_output (arg_city a)) = None ->
        made_dirs (script lower http_get io_error a) = [u "data"]
        /\ written (script lower http_get io_error a)
           = Some (default_output (arg_city a),
                   CSV_HEADERS :: all_data (script lower http_get io_error a))).
Proof.
  intros lower http_get io_error a Ho Hc.
  assert (E : output_of a = default_output (arg_city a)).
  { unfold output_of. destruct Ho as [-> | ->]; reflexivity. }
  split; [exact E |].
  unfold script. rewrite E. intros Hne Hio.
  pose proof (main_keeps_effects lower http_get io_error (arg_city a)
                (arg_pages a) (default_output (arg_city a))) as [_ Hm].
  pose proof (main_writes lower http_get io_error (arg_city a)
                (arg_pages a) (default_output (arg_city a))) as Hw.
  rewrite Hio, (default_output_dirname _ Hc) in Hm. rewrite Hio in Hw.
  destruct (all_data (main lower http_get io_error (arg_city a)
                           (arg_pages a) (default_output (arg_city a))));
    [contradiction |].
  split; [exact Hm | apply Hw].
Qed.

Lemma script_default_output_witness :
  (arg_output default_args = None \/ arg_output default_args = Some [])
  /\ ~ In 47%N (arg_city default_args)
  /\ output_of default_args = u "data/ogloszenia_lodz.csv".
Proof.
  assert (H : ~ In 47%N (arg_city default_args))
    by (vm_compute; intuition discriminate).
  split; [now left |].
  split; [exact H |].
  apply (proj1 (script_default_output ascii_lower two_page_site disk_ok
                  default_args (or_introl eq_refl) H)).
Defined.

(** ** Cleaning before parsing *)

Lemma lstrip_split (s : str) :
  exists ws, s = ws ++ lstrip s /\ forallb isspace ws = true.
Proof.
  induction s as [| c s (ws & IH & Hws)]; simpl; [now exists [] |].
  destruct (isspace c) eqn:E.
  - exists (c :: ws). simpl. rewrite E, Hws. split; [now f_equal | reflexivity].
  - now exists [].
Qed.

Lemma strip_split (s : str) :
  exists ws1 ws2,
    s = ws1 ++ strip s ++ ws2
    /\ forallb isspace ws1 = true /\ forallb isspace ws2 = true.
Proof.
  destruct (lstrip_split s) as (ws1 & H1 & Hws1).
  destruct (lstrip_split (rev (lstrip s))) as (ws2 & H2 & Hws2).
  exists ws1, (rev ws2). unfold strip, rstrip.
  rewrite <- rev_app_distr, <- H2, rev_involutive.
  repeat split; auto.
  rewrite forallb_forall in *. intros c Hc. apply Hws2. now apply in_rev.
Qed.

Lemma take_run_pad (cls : N -> bool) (x b : str) :
  forallb (fun c => negb (cls c)) b = true ->
  take_run cls (x ++ b) = take_run cls x.
Proof.
  intros Hb. induction x as [| c x IH]; simpl.
  - destruct b as [| c b]; [reflexivity |]. simpl in *.
    apply andb_true_iff in Hb. destruct Hb as [Hc _].
    apply negb_true_iff in Hc. now rewrite Hc.
  - destruct (cls c); [now f_equal | reflexivity].
Qed.

Lemma first_run_pad (cls : N -> bool) (a x b : str) :
  forallb (fun c => negb (cls c)) a = true ->
  forallb (fun c => negb (cls c)) b = true ->
  first_run cls (a ++ x ++ b) = first_run cls x.
Proof.
  intros Ha Hb. unfold first_run. rewrite skip_to_app by exact Ha.
  induction x as [| c x IH]; simpl.
  - rewrite <- (app_nil_r b), skip_to_app by exact Hb. reflexivity.
  - destruct (cls c) eqn:E; [| exact IH].
    simpl. rewrite E. now rewrite take_run_pad.
Qed.

Lemma first_run_map (cls : N -> bool) (g : N -> N) (s : str) :
  (forall c, cls c = true -> g c = c) ->
  (forall c, cls c = false -> cls (g c) = false) ->
  first_run cls (map g s) = first_run cls s.
Proof.
  intros H1 H2. unfold first_run.
  assert (Ht : forall t, take_run cls (map g t) = take_run cls t).
  { induction t as [| c t IH]; simpl; [reflexivity |].
    destruct (cls c) eqn:E.
    - rewrite (H1 c E), E. now f_equal.
    - now rewrite (H2 c E). }
  induction s as [| c s IH]; simpl; [reflexivity |].
  destruct (cls c) eqn:E.
  - rewrite (H1 c E), E. simpl. rewrite ?E, Ht. reflexivity.
  - rewrite (H2 c E). exact IH.
Qed.

Lemma spaces_not_area (ws : str) :
  forallb isspace ws = true ->
  forallb (fun c => negb (digit_or_stop c)) (replace_char 44 46 ws) = true.
Proof.
  intros H. unfold replace_char. rewrite forallb_forall in *.
  intros c Hc. apply in_map_iff in Hc. destruct Hc as (x & <- & Hx).
  specialize (H x Hx). apply isspace_inv in H.
  unfold whitespace_points in H.
  repeat (destruct H as [H | H]; [subst x; reflexivity |]).
  destruct H.
Qed.

Lemma digits_after_nbsp (s : str) :
  sub_non_digits (replace_char 160 32 s) = sub_non_digits s.
Proof.
  unfold sub_non_digits, replace_char.
  induction s as [| c s IH]; simpl; [reflexivity |].
  destruct (c =? 160)%N eqn:Ec.
  - apply N.eqb_eq in Ec. subst c. simpl. exact IH.
  - destruct (isdecimal c); [f_equal |]; exact IH.
Qed.

(** The cleaning [parse_listing] applies to a stat text before parsing it
    does not change the number read: [_parse_price] and [_parse_area] give
    the same result on the cleaned text as on the raw one. *)
Theorem cleaning_keeps_numbers :
  forall s,
    _parse_price (_clean s) = _parse_price s
    /\ _parse_area (_clean s) = _parse_area s.
Proof.
  intros s. rewrite clean_eq.
  destruct (strip_split (replace_char 160 32 s))
    as (ws1 & ws2 & E & H1 & H2).
  split.
  - rewrite !parse_price_eq.
    assert (Hf : sub_non_digits (strip (replace_char 160 32 s))
                 = sub_non_digits s).
    { transitivity (sub_non_digits (replace_char 160 32 s)).
      - rewrite E at 2. unfold sub_non_digits. rewrite !filter_app.
        assert (Hz : forall ws, forallb isspace ws = true ->
                                filter isdecimal ws = []).
        { induction ws as [| c ws IH]; simpl; [reflexivity |].
          intros H. apply andb_true_iff in H. destruct H as [Hc H].
          rewrite (isspace_not_decimal c Hc). now apply IH. }
        rewrite (Hz ws1 H1), (Hz ws2 H2). simpl. now rewrite app_nil_r.
      - apply digits_after_nbsp. }
    now rewrite Hf.
  - rewrite !parse_area_eq.
    assert (Hf : first_run digit_or_stop
                   (replace_char 44 46 (strip (replace_char 160 32 s)))
                 = first_run digit_or_stop (replace_char 44 46 s)).
    { transitivity (first_run digit_or_stop
                      (replace_char 44 46 (replace_char 160 32 s))).
      - rewrite E at 2. unfold replace_char at 3. rewrite !map_app.
        symmetry. apply first_run_pad; now apply spaces_not_area.
      - unfold replace_char. rewrite !map_map.
        rewrite <- (first_run_map digit_or_stop
                      (fun c => if (c =? 160)%N then 32%N else c)
                      (map (fun c => if (c =? 44)%N then 46%N else c) s)).
        + rewrite map_map. f_equal. apply map_ext. intros c.
          destruct (c =? 160)%N eqn:E1; destruct (c =? 44)%N eqn:E2;
            simpl; rewrite ?E1, ?E2; try reflexivity.
          apply N.eqb_eq in E1. apply N.eqb_eq in E2. congruence.
        + intros c Hc. destruct (c =? 160)%N eqn:E1; [| reflexivity].
          apply N.eqb_eq in E1. subst. discriminate.
        + intros c Hc. destruct (c =? 160)%N; [reflexivity | exact Hc]. }
    now rewrite Hf.
Qed.

Lemma link_cell_is_empty_or_http_witness :
  exists l,
    field 9 (parse_listing ascii_lower (bare_card (u "5") (u "Oferta") None))
    = Some (CStr l)
    /\ l = [].
Proof.
  destruct (link_cell_is_empty_or_http ascii_lower
              (bare_card (u "5") (u "Oferta") None)) as (l & H1 & _ & H3).
  exists l. split; [exact H1 |].
  apply H3. left. reflexivity.
Defined.

Lemma requests_are_bounded_witness :
  In (page_url (u "lodz") 1)
     (requests (main ascii_lower two_page_site disk_ok (u "lodz") 8
                     (u "out.csv")))
  /\ exists n, 1 <= n <= 8 /\ page_url (u "lodz") 1 = page_url (u "lodz") n.
Proof.
  assert (H : In (page_url (u "lodz") 1)
                 (requests (main ascii_lower two_page_site disk_ok (u "lodz")
                                 8 (u "out.csv"))))
    by (vm_compute; left; reflexivity).
  split; [exact H |].
  apply (proj2 (requests_are_bounded ascii_lower two_page_site disk_ok
                  (u "lodz") 8 (u "out.csv"))).
  exact H.
Defined.
